(** * Mizu Sensor Hub: the sampling-and-encoding cycle of [main.cpp]

    A shallow embedding of [main()] of the telemetry hub: the working
    variables, one pass of the [while (true)] body over the answers of
    the hardware collaborators, the [printf] conversion of the record
    into its wire line, and the unbounded repetition of the body.

    C [float] is IEEE-754 binary32.  Its arithmetic is taken from the
    parametric specification [SpecFloat] of the Standard Library at
    precision 24 and maximal exponent 128, so every operation below
    computes; the sign bit of a NaN, which [SpecFloat] leaves out and
    [printf] shows, is added to it. *)

From Stdlib Require Import ZArith Lia List Bool Ascii String.
From Stdlib Require Import Floats.SpecFloat.
Import ListNotations.

Local Open Scope string_scope.
Local Open Scope Z_scope.

(** ** binary32 arithmetic *)

Module F32.

Definition prec : Z := 24.
Definition emax : Z := 128.

(** A [float] value.  [S754_finite s m e] denotes [(-1)^s * m * 2^e].
    [spec_float] has one NaN, without a sign; a C [float] NaN has a sign
    bit, which [printf] shows.  [Num S754_nan] is the NaN with the sign
    bit clear, [NegNaN] the NaN with the sign bit set; payloads are not
    kept. *)
Inductive float32 : Type :=
| Num (x : spec_float)
| NegNaN.

(** The value without the sign of a NaN. *)
Definition spec (x : float32) : spec_float :=
  match x with
  | Num y => y
  | NegNaN => S754_nan
  end.

(** A binary operation with a NaN operand returns that NaN, the first
    one when both are; otherwise the operation of [SpecFloat] decides,
    and a NaN it makes out of other operands (an invalid operation) is
    the default NaN of the target, sign bit clear.  The program itself
    subtracts, divides by and multiplies by finite non-zero constants
    only, which is never invalid. *)
Definition lift2 (op : spec_float -> spec_float -> spec_float)
           (x y : float32) : float32 :=
  match x, y with
  | NegNaN, _ => NegNaN
  | Num S754_nan, _ => Num S754_nan
  | Num _, NegNaN => NegNaN
  | Num a, Num b => Num (op a b)
  end.

(** [static_cast<float>(n)] for an integer [n]: round to nearest even. *)
Definition of_int (n : Z) : float32 := Num (binary_normalize prec emax n 0 false).

Definition sub (x y : float32) : float32 := lift2 (SFsub prec emax) x y.
Definition mul (x y : float32) : float32 := lift2 (SFmul prec emax) x y.
Definition div (x y : float32) : float32 := lift2 (SFdiv prec emax) x y.

(** A decimal literal [n / 10^k] with suffix [f]: the binary32 nearest
    to the decimal.  Numerator and power of ten are exact in binary32
    for the literals of the program, and IEEE division rounds the
    exact quotient correctly, so the quotient is that nearest value. *)
Definition lit (n : Z) (k : nat) : float32 :=
  div (of_int n) (of_int (10 ^ Z.of_nat k)).

Definition is_finite (x : spec_float) : bool :=
  match x with
  | S754_zero _ | S754_finite _ _ _ => true
  | S754_infinity _ | S754_nan => false
  end.

Definition signbit (x : spec_float) : bool :=
  match x with
  | S754_zero s | S754_infinity s | S754_finite s _ _ => s
  | S754_nan => false
  end.

(** A finite value that is not below zero. *)
Definition nonneg (x : spec_float) : bool :=
  match x with
  | S754_zero _ => true
  | S754_finite s _ _ => negb s
  | S754_infinity _ | S754_nan => false
  end.

(** [x <= k], exactly, for a finite [x] and an integer [k >= 0]. *)
Definition le_int (x : spec_float) (k : Z) : bool :=
  match x with
  | S754_zero _ => 0 <=? k
  | S754_finite true _ _ => 0 <=? k
  | S754_finite false m e =>
      if 0 <=? e then Zpos m * 2 ^ e <=? k else Zpos m <=? k * 2 ^ (- e)
  | S754_infinity _ | S754_nan => false
  end.

(** A finite value that is a whole number: a non-negative exponent, or
    a mantissa whose low [-e] bits are all zero. *)
Definition is_integral (x : spec_float) : bool :=
  match x with
  | S754_zero _ => true
  | S754_finite _ m e => (0 <=? e) || (Zpos m mod 2 ^ (- e) =? 0)
  | S754_infinity _ | S754_nan => false
  end.

(** The whole number denoted by an integral value. *)
Definition to_Z (x : spec_float) : Z :=
  match x with
  | S754_finite s m e =>
      let a := if 0 <=? e then Zpos m * 2 ^ e else Zpos m / 2 ^ (- e) in
      if s then - a else a
  | _ => 0
  end.

(** What [j] right shifts make of a mantissa [M]: the quotient, and no
    inexactness flag when the division is exact. *)
Definition shifted (M : Z) (j : Z) (mrs : shr_record) : Prop :=
  shr_m mrs = M / 2 ^ j /\
  (M mod 2 ^ j = 0 -> shr_r mrs = false /\ shr_s mrs = false).

(** A finite value below [2^K] in magnitude. *)
Definition mag_le (x : spec_float) (K : Z) : bool :=
  match x with
  | S754_zero _ => true
  | S754_finite _ m e => Zpos (digits2_pos m) + e <=? K
  | S754_infinity _ | S754_nan => false
  end.

(** A value that fits binary32 when it is finite: at most 24 mantissa
    bits and an exponent of at most [emax - prec]. *)
Definition in_format (x : spec_float) : bool :=
  match x with
  | S754_finite _ m e => (Zpos (digits2_pos m) <=? prec) && (e <=? emax - prec)
  | _ => true
  end.

End F32.

(** A [float32] is read as its [spec_float] value wherever the sign of a
    NaN does not matter. *)
Coercion F32.spec : F32.float32 >-> spec_float.

(** ** [printf]: the conversions the program uses

    [printf] belongs to the C library, not to the repository.  Its
    [%s] and [%.Nf] conversions follow ISO C 7.21.6.1: a [float]
    argument is promoted to [double] (exactly), a finite value is
    written in decimal with exactly [N] digits after the point, rounded
    correctly (to nearest, ties to even, on the exact binary value), and
    infinities and NaN are written as [inf] and [nan], after a minus
    sign when the sign bit is set. *)

Module Printf.

Inductive arg : Type :=
| ArgString (s : string)
| ArgDouble (x : F32.float32).

(** Default argument promotion of a [float] passed through [...]:
    every binary32 value is a binary64 value, the sign of a NaN is
    kept, and [F32.float32] denotes the value itself, whatever the
    format. *)
Definition promote (x : F32.float32) : F32.float32 := x.

Inductive conv : Type :=
| Lit (c : ascii)
| ConvS
| ConvF (precision : nat).

Inductive pstate : Type :=
| PText
| PPercent
| PPrecision (n : nat).

Definition is_digit (c : ascii) : bool :=
  let n := nat_of_ascii c in (48 <=? n)%nat && (n <=? 57)%nat.

Definition digit_val (c : ascii) : nat := nat_of_ascii c - 48.

(** Scanner of a format string.  [None] stands for a directive outside
    the modelled subset (undefined or unsupported in C). *)
Fixpoint parse_format (st : pstate) (s : string) : option (list conv) :=
  match s with
  | EmptyString =>
      match st with
      | PText => Some []
      | _ => None
      end
  | String c rest =>
      match st with
      | PText =>
          if Ascii.eqb c "%" then parse_format PPercent rest
          else option_map (cons (Lit c)) (parse_format PText rest)
      | PPercent =>
          if Ascii.eqb c "s" then option_map (cons ConvS) (parse_format PText rest)
          else if Ascii.eqb c "f" then option_map (cons (ConvF 6)) (parse_format PText rest)
          else if Ascii.eqb c "%" then option_map (cons (Lit "%")) (parse_format PText rest)
          else if Ascii.eqb c "." then parse_format (PPrecision 0) rest
          else None
      | PPrecision n =>
          if is_digit c then parse_format (PPrecision (10 * n + digit_val c)) rest
          else if Ascii.eqb c "f" then option_map (cons (ConvF n)) (parse_format PText rest)
          else None
      end
  end.

Definition digit_char (d : Z) : ascii := ascii_of_nat (48 + Z.to_nat d).

(** Decimal digits of [n >= 0], most significant first, prepended to
    [acc]; [fuel] bounds the number of digits. *)
Fixpoint dec_digits (fuel : nat) (n : Z) (acc : string) : string :=
  match fuel with
  | O => acc
  | S k =>
      let acc' := String (digit_char (n mod 10)) acc in
      if n / 10 =? 0 then acc' else dec_digits k (n / 10) acc'
  end.

Definition dec (n : Z) : string :=
  dec_digits (S (Z.to_nat (Z.log2 n))) n "".

(** The number a string of decimal digits denotes, continuing from
    [acc]. *)
Fixpoint digits_value (s : string) (acc : Z) : Z :=
  match s with
  | EmptyString => acc
  | String c rest => digits_value rest (10 * acc + Z.of_nat (digit_val c))
  end.

(** The [d] low decimal digits of [n], zero padded. *)
Fixpoint frac_digits (d : nat) (n : Z) : string :=
  match d with
  | O => ""
  | S k => String (digit_char ((n / 10 ^ Z.of_nat k) mod 10)) (frac_digits k n)
  end.

(** [m * 2^e * 10^d] rounded to an integer, to nearest, ties to even. *)
Definition scaled_round (m : positive) (e : Z) (d : nat) : Z :=
  let p10 := 10 ^ Z.of_nat d in
  if 0 <=? e then Zpos m * 2 ^ e * p10
  else
    let den := 2 ^ (- e) in
    let num := Zpos m * p10 in
    let q := num / den in
    let r := num mod den in
    match 2 * r ?= den with
    | Lt => q
    | Gt => q + 1
    | Eq => if Z.even q then q else q + 1
    end.

Definition sign_text (s : bool) : string := if s then "-" else "".

Definition fixed_text (s : bool) (n : Z) (d : nat) : string :=
  sign_text s ++ dec (n / 10 ^ Z.of_nat d)
    ++ match d with
       | O => ""
       | S _ => String "." (frac_digits d n)
       end.

(** The conversion [%.df]. *)
Definition fmt_f (d : nat) (x : F32.float32) : string :=
  match x with
  | F32.NegNaN => "-nan"
  | F32.Num S754_nan => "nan"
  | F32.Num (S754_infinity s) => sign_text s ++ "inf"
  | F32.Num (S754_zero s) => fixed_text s 0 d
  | F32.Num (S754_finite s m e) => fixed_text s (scaled_round m e d) d
  end.

(** Conversions consume the arguments from left to right; a missing
    argument or one of the wrong type is undefined in C: [None]. *)
Fixpoint format (cs : list conv) (args : list arg) : option string :=
  match cs with
  | [] => Some ""
  | Lit c :: cs' => option_map (String c) (format cs' args)
  | ConvS :: cs' =>
      match args with
      | ArgString s :: args' => option_map (append s) (format cs' args')
      | _ => None
      end
  | ConvF d :: cs' =>
      match args with
      | ArgDouble x :: args' => option_map (append (fmt_f d x)) (format cs' args')
      | _ => None
      end
  end.

Definition sprintf (fmt : string) (args : list arg) : option string :=
  match parse_format PText fmt with
  | Some cs => format cs args
  | None => None
  end.

End Printf.

(** ** C string literals *)

Definition CR : ascii := ascii_of_nat 13.
Definition LF : ascii := ascii_of_nat 10.

(** The escape sequences of a C string literal, as far as the program
    writes them: backslash-r and backslash-n. *)
Fixpoint c_literal (s : string) : string :=
  match s with
  | String "\" (String "r" rest) => String CR (c_literal rest)
  | String "\" (String "n" rest) => String LF (c_literal rest)
  | String c rest => String c (c_literal rest)
  | EmptyString => EmptyString
  end.

(** ** The wire line as its reader sees it

    The line format of the header comment of [main.cpp]: comma-separated
    [key=value] fields closed by CR LF.  These functions take a line
    apart again; the properties of the emitted line are stated through
    them. *)

Module Wire.

Fixpoint all_chars (p : ascii -> bool) (s : string) : bool :=
  match s with
  | EmptyString => true
  | String c rest => p c && all_chars p rest
  end.

Definition is_eol (c : ascii) : bool := Ascii.eqb c CR || Ascii.eqb c LF.

Definition no_eol (s : string) : bool := all_chars (fun c => negb (is_eol c)) s.

Definition is_ascii7 (c : ascii) : bool := (nat_of_ascii c <? 128)%nat.

(** The pieces of [s] between the occurrences of [sep]. *)
Fixpoint split (sep : ascii) (s : string) : list string :=
  match s with
  | EmptyString => [EmptyString]
  | String c rest =>
      if Ascii.eqb c sep then EmptyString :: split sep rest
      else
        match split sep rest with
        | piece :: pieces => String c piece :: pieces
        | [] => [String c EmptyString]
        end
  end.

(** [body] when the line is [body] followed by CR LF and nothing else. *)
Fixpoint strip_crlf (s : string) : option string :=
  match s with
  | EmptyString => None
  | String c rest =>
      if Ascii.eqb c CR && String.eqb rest (String LF EmptyString) then Some EmptyString
      else option_map (String c) (strip_crlf rest)
  end.

(** [key=value] cut at its first [=]. *)
Fixpoint key_value (s : string) : option (string * string) :=
  match s with
  | EmptyString => None
  | String c rest =>
      if Ascii.eqb c "=" then Some (EmptyString, rest)
      else option_map (fun kv => (String c (fst kv), snd kv)) (key_value rest)
  end.

Fixpoint all_some {A : Type} (l : list (option A)) : option (list A) :=
  match l with
  | [] => Some []
  | Some a :: l' => option_map (cons a) (all_some l')
  | None :: _ => None
  end.

Definition parse_line (line : string) : option (list (string * string)) :=
  match strip_crlf line with
  | Some body => all_some (map key_value (split "," body))
  | None => None
  end.

Fixpoint lookup (k : string) (kvs : list (string * string)) : option string :=
  match kvs with
  | [] => None
  | (k', v) :: rest => if String.eqb k k' then Some v else lookup k rest
  end.

(** The text of field [k] of a line. *)
Definition field (k : string) (line : string) : option string :=
  match parse_line line with
  | Some kvs => lookup k kvs
  | None => None
  end.

Fixpoint skip_digits (s : string) : nat * string :=
  match s with
  | String c rest =>
      if Printf.is_digit c then
        let '(n, tail) := skip_digits rest in (S n, tail)
      else (O, s)
  | EmptyString => (O, s)
  end.

Definition strip_sign (s : string) : string :=
  match s with
  | String c rest => if Ascii.eqb c "-" then rest else s
  | EmptyString => s
  end.

(** A decimal number with an optional minus sign, at least one integer
    digit, a point, and exactly [d] fraction digits. *)
Definition fixed_point (d : nat) (s : string) : bool :=
  let '(n, tail) := skip_digits (strip_sign s) in
  (0 <? n)%nat &&
  match tail with
  | String c fr =>
      Ascii.eqb c "." && all_chars Printf.is_digit fr && (String.length fr =? d)%nat
  | EmptyString => false
  end.

Definition CRLF : string := String CR (String LF EmptyString).

(** The line made of the given fields: [key=value] joined by commas,
    closed by CR LF. *)
Fixpoint join_fields (kvs : list (string * string)) : string :=
  match kvs with
  | [] => EmptyString
  | (k, v) :: rest =>
      match rest with
      | [] => k ++ String "=" v
      | _ :: _ => k ++ String "=" (v ++ String "," (join_fields rest))
      end
  end.

Definition render (kvs : list (string * string)) : string :=
  join_fields kvs ++ CRLF.

(** Characters that cannot be taken for a separator of the line. *)
Definition plain_char (c : ascii) : bool :=
  negb (Ascii.eqb c "," || Ascii.eqb c "=" || is_eol c) && is_ascii7 c.

(** The characters [printf] can produce for a [double]. *)
Definition value_char (c : ascii) : bool :=
  Printf.is_digit c || Ascii.eqb c "-" || Ascii.eqb c "." ||
  Ascii.eqb c "i" || Ascii.eqb c "n" || Ascii.eqb c "f" || Ascii.eqb c "a".

(** Fields whose keys and values hold no separator. *)
Definition plain_fields (kvs : list (string * string)) : Prop :=
  Forall (fun kv => all_chars plain_char (fst kv) = true /\
                    all_chars plain_char (snd kv) = true) kvs.

(** The fraction digits of a decimal number: what follows its point. *)
Fixpoint fraction_of (s : string) : option string :=
  match s with
  | EmptyString => None
  | String c rest => if Ascii.eqb c "." then Some rest else fraction_of rest
  end.

End Wire.

(** ** The program *)

Module Hub.

Import Printf.

(** *** Configuration *)

Definition kDeviceId : string := "MIZU_0001".

(** [5.2f] *)
Definition kDummyWindSpeedMs : F32.float32 := F32.lit 52 1.

(** *** Telemetry working variables

    The locals of [main] declared before the loop; they live across
    iterations.  [int] and [char] variables are never read back by the
    program, so they are kept as [Z] and [ascii] without arithmetic. *)

Record Vars : Type := {
  battery_voltage_v : F32.float32;
  board_temp_c : F32.float32;
  ambient_temp_c : F32.float32;
  relative_humidity_percent : F32.float32;
  gps_quality_flag : Z;
  gps_sat_count : Z;
  gps_fix_check : Z;
  gps_ns_indicator : ascii;
  gps_ew_indicator : ascii;
  gps_alt_unit : ascii;
  gps_time_utc : F32.float32;
  gps_latitude_deg : F32.float32;
  gps_longitude_deg : F32.float32;
  gps_horz_acc_m : F32.float32;
  gps_altitude_m : F32.float32
}.

(** The initialisers: [0.0f], [0], ['N'], ['E'], ['m']. *)
Definition init_vars : Vars := {|
  battery_voltage_v := F32.lit 0 1;
  board_temp_c := F32.lit 0 1;
  ambient_temp_c := F32.lit 0 1;
  relative_humidity_percent := F32.lit 0 1;
  gps_quality_flag := 0;
  gps_sat_count := 0;
  gps_fix_check := 0;
  gps_ns_indicator := "N"%char;
  gps_ew_indicator := "E"%char;
  gps_alt_unit := "m"%char;
  gps_time_utc := F32.lit 0 1;
  gps_latitude_deg := F32.lit 0 1;
  gps_longitude_deg := F32.lit 0 1;
  gps_horz_acc_m := F32.lit 0 1;
  gps_altitude_m := F32.lit 0 1
|}.

(** *** The collaborators, as one iteration meets them

    The drivers are outside the repository.  A driver that reports
    through a pointer either stores a value there or leaves the
    pointee alone: [Some x] and [None].  A driver that reports through
    its return value always returns something. *)

Record GgaWrites : Type := {
  w_time : option F32.float32;
  w_latitude : option F32.float32;
  w_ns : option ascii;
  w_longitude : option F32.float32;
  w_ew : option ascii;
  w_quality : option Z;
  w_sat_count : option Z;
  w_horz_acc : option F32.float32;
  w_altitude : option F32.float32;
  w_alt_unit : option ascii;
  w_fix_check : option Z
}.

Record Collab : Type := {
  vol : option F32.float32;          (* power_system.vol(float * ) *)
  temp_sense : option F32.float32;   (* hepta_sensors.temp_sense(float * ) *)
  getFahrenheit : Z;                 (* dht11_env_sensor.getFahrenheit() *)
  getHumidity : Z;                   (* dht11_env_sensor.getHumidity() *)
  soil_read : F32.float32;           (* soil_moisture_sensor.read() *)
  gga_sensing : GgaWrites            (* hepta_sensors.gga_sensing(...) *)
}.

(** The pointee after a call that was handed its address. *)
Definition stored {A : Type} (old : A) (w : option A) : A :=
  match w with
  | Some x => x
  | None => old
  end.

(** The range of [int] on the target (32 bits). *)
Definition is_int (n : Z) : Prop := - 2 ^ 31 <= n < 2 ^ 31.

(** *** What the program does to the outside *)

Inductive event : Type :=
| TimerStart
| GpsSetting
| VolRead
| TempSense
| DhtRead
| DhtGetFahrenheit
| DhtGetHumidity
| SoilRead
| GgaSensing
| Transmit (line : string)
| Wait (seconds : F32.float32).

(** *** The record handed to [printf] *)

Record Telemetry : Type := {
  ambient_temp : F32.float32;
  humidity : F32.float32;
  soil_moisture : F32.float32;
  soil_temp : F32.float32;
  wind_speed : F32.float32;
  longitude : F32.float32;
  latitude : F32.float32
}.

Definition FORMAT : string :=
  c_literal "device_id=%s,ambient_temp=%.2f,humidity=%.2f,soil_moisture=%.1f,soil_temp=%.1f,wind_speed=%.1f,longitude=%.6f,latitude=%.6f\r\n".

(** The arguments of the single [comms_link.printf] call. *)
Definition printf_args (r : Telemetry) : list arg :=
  [ ArgString kDeviceId;
    ArgDouble (promote (ambient_temp r));
    ArgDouble (promote (humidity r));
    ArgDouble (promote (soil_moisture r));
    ArgDouble (promote (soil_temp r));
    ArgDouble (promote (wind_speed r));
    ArgDouble (promote (longitude r));
    ArgDouble (promote (latitude r)) ].

(** The text [comms_link.printf] sends for a record. *)
Definition encode (r : Telemetry) : option string :=
  sprintf FORMAT (printf_args r).

(** *** The sensor reads of one iteration *)

Definition read_sensors (v : Vars) (c : Collab) : Vars * Telemetry :=
  let battery := stored (battery_voltage_v v) (vol c) in
  let board := stored (board_temp_c v) (temp_sense c) in
  let ambient_temp_f_int := getFahrenheit c in
  let humidity_int := getHumidity c in
  let ambient :=
    F32.div (F32.sub (F32.of_int ambient_temp_f_int) (F32.lit 320 1)) (F32.lit 18 1) in
  let rh := F32.of_int humidity_int in
  let soil_moisture_percent := F32.mul (soil_read c) (F32.lit 1000 1) in
  let g := gga_sensing c in
  let v' := {|
    battery_voltage_v := battery;
    board_temp_c := board;
    ambient_temp_c := ambient;
    relative_humidity_percent := rh;
    gps_quality_flag := stored (gps_quality_flag v) (w_quality g);
    gps_sat_count := stored (gps_sat_count v) (w_sat_count g);
    gps_fix_check := stored (gps_fix_check v) (w_fix_check g);
    gps_ns_indicator := stored (gps_ns_indicator v) (w_ns g);
    gps_ew_indicator := stored (gps_ew_indicator v) (w_ew g);
    gps_alt_unit := stored (gps_alt_unit v) (w_alt_unit g);
    gps_time_utc := stored (gps_time_utc v) (w_time g);
    gps_latitude_deg := stored (gps_latitude_deg v) (w_latitude g);
    gps_longitude_deg := stored (gps_longitude_deg v) (w_longitude g);
    gps_horz_acc_m := stored (gps_horz_acc_m v) (w_horz_acc g);
    gps_altitude_m := stored (gps_altitude_m v) (w_altitude g)
  |} in
  (v', {|
    ambient_temp := ambient_temp_c v';
    humidity := relative_humidity_percent v';
    soil_moisture := soil_moisture_percent;
    soil_temp := board_temp_c v';
    wind_speed := kDummyWindSpeedMs;
    longitude := gps_longitude_deg v';
    latitude := gps_latitude_deg v'
  |}).

(** The calls of one iteration before the [printf], in program order. *)
Definition sensor_calls : list event :=
  [VolRead; TempSense; DhtRead; DhtGetFahrenheit; DhtGetHumidity; SoilRead; GgaSensing].

(** *** One iteration of the loop body

    [None] is undefined behaviour of the [printf] call. *)
Definition loop_body (v : Vars) (c : Collab) : option (Vars * list event) :=
  let '(v', r) := read_sensors v c in
  match encode r with
  | Some line => Some (v', sensor_calls ++ [Transmit line; Wait (F32.lit 10 1)])%list
  | None => None
  end.

(** *** The loop

    Where control is after at most [n] iterations: still in the loop,
    past it, or lost to undefined behaviour. *)
Inductive status : Type :=
| InLoop
| Exited
| Undefined.

Record run : Type := {
  run_status : status;
  run_vars : Vars;
  run_trace : list event
}.

(** [while (cond) body], unrolled at most [n] times; iteration [i]
    meets the collaborators in state [env i]. *)
Fixpoint while_loop (cond : Vars -> bool)
         (body : Vars -> Collab -> option (Vars * list event))
         (n : nat) (env : nat -> Collab) (i : nat) (v : Vars) : run :=
  match n with
  | O => {| run_status := InLoop; run_vars := v; run_trace := [] |}
  | S n' =>
      if cond v then
        match body v (env i) with
        | Some (v', evs) =>
            let r := while_loop cond body n' env (S i) v' in
            {| run_status := run_status r;
               run_vars := run_vars r;
               run_trace := (evs ++ run_trace r)%list |}
        | None => {| run_status := Undefined; run_vars := v; run_trace := [] |}
        end
      else {| run_status := Exited; run_vars := v; run_trace := [] |}
  end.

(** [main], observed for [n] iterations of its [while (true)]. *)
Definition main (n : nat) (env : nat -> Collab) : run :=
  let r := while_loop (fun _ => true) loop_body n env O init_vars in
  {| run_status := run_status r;
     run_vars := run_vars r;
     run_trace := (TimerStart :: GpsSetting :: run_trace r)%list |}.

(** The lines sent in a trace, oldest first. *)
Fixpoint lines_of (tr : list event) : list string :=
  match tr with
  | [] => []
  | Transmit line :: tr' => line :: lines_of tr'
  | _ :: tr' => lines_of tr'
  end.

(** The variables at the head of iteration [i]. *)
Fixpoint vars_at (env : nat -> Collab) (i : nat) : Vars :=
  match i with
  | O => init_vars
  | S j => fst (read_sensors (vars_at env j) (env j))
  end.

(** The record of iteration [i]. *)
Definition record_at (env : nat -> Collab) (i : nat) : Telemetry :=
  snd (read_sensors (vars_at env i) (env i)).

(** *** The fields of the record

    The field table of the wire format as the documentation gives it:
    keys in order and fraction digits per field.  [FORMAT] is checked
    against it below. *)

Inductive field_id : Type :=
| DeviceId
| AmbientTemp
| Humidity
| SoilMoisture
| SoilTemp
| WindSpeed
| Longitude
| Latitude.

Definition all_fields : list field_id :=
  [DeviceId; AmbientTemp; Humidity; SoilMoisture; SoilTemp; WindSpeed; Longitude; Latitude].

Definition key_of (f : field_id) : string :=
  match f with
  | DeviceId => "device_id"
  | AmbientTemp => "ambient_temp"
  | Humidity => "humidity"
  | SoilMoisture => "soil_moisture"
  | SoilTemp => "soil_temp"
  | WindSpeed => "wind_speed"
  | Longitude => "longitude"
  | Latitude => "latitude"
  end.

(** Fraction digits of the seven numeric fields. *)
Definition digits_of (f : field_id) : nat :=
  match f with
  | DeviceId => 0
  | AmbientTemp | Humidity => 2
  | SoilMoisture | SoilTemp | WindSpeed => 1
  | Longitude | Latitude => 6
  end.

Definition numeric_value (r : Telemetry) (f : field_id) : option F32.float32 :=
  match f with
  | DeviceId => None
  | AmbientTemp => Some (ambient_temp r)
  | Humidity => Some (humidity r)
  | SoilMoisture => Some (soil_moisture r)
  | SoilTemp => Some (soil_temp r)
  | WindSpeed => Some (wind_speed r)
  | Longitude => Some (longitude r)
  | Latitude => Some (latitude r)
  end.

(** The text of a field under the conversion the format gives it. *)
Definition text_of (r : Telemetry) (f : field_id) : string :=
  match numeric_value r f with
  | Some x => fmt_f (digits_of f) (promote x)
  | None => kDeviceId
  end.

Definition fields_of (r : Telemetry) : list (string * string) :=
  map (fun f => (key_of f, text_of r f)) all_fields.

(** The line of a record, field by field. *)
Definition line_of (r : Telemetry) : string := Wire.render (fields_of r).

(** What iteration [i] does to the outside. *)
Definition cycle_trace (env : nat -> Collab) (i : nat) : list event :=
  (sensor_calls ++ [Transmit (line_of (record_at env i)); Wait (F32.lit 10 1)])%list.

(** The line iteration [i] sends, read off the trace of [main]. *)
Definition line_at (n : nat) (env : nat -> Collab) (i : nat) : option string :=
  nth_error (lines_of (run_trace (main n env))) i.

(** Whether the source of a field hands over a value in an iteration.
    Only the pointer-reporting drivers can stay silent; a return value
    is always there, and a constant has no source to fail. *)
Definition reports (c : Collab) (f : field_id) : bool :=
  match f with
  | SoilTemp => match temp_sense c with Some _ => true | None => false end
  | Longitude => match w_longitude (gga_sensing c) with Some _ => true | None => false end
  | Latitude => match w_latitude (gga_sensing c) with Some _ => true | None => false end
  | DeviceId | AmbientTemp | Humidity | SoilMoisture | WindSpeed => true
  end.

(** The text a field has on the first line when its source is silent
    from the start: the initialiser [0.0f] under the field's format. *)
Definition startup_text (f : field_id) : string :=
  match f with
  | DeviceId => kDeviceId
  | f => fmt_f (digits_of f) (F32.lit 0 1)
  end.

(** The conversion of the documentation, [celsius = (f - 32) / 1.8],
    over the rationals: [(f - 32) / 1.8 = 5 (f - 32) / 9], here in
    hundredths of a degree, rounded to nearest, ties to even. *)
Definition celsius_hundredths (f : Z) : Z :=
  let num := 500 * (f - 32) in
  let q := num / 9 in
  match 2 * (num mod 9) ?= 9 with
  | Lt => q
  | Gt => q + 1
  | Eq => if Z.even q then q else q + 1
  end.

(** Fahrenheit readings from -100 to 899. *)
Definition fahrenheit_table : list Z :=
  map (fun k => Z.of_nat k - 100) (seq 0 1000).

(** *** Collaborator states used as test inputs *)

(** A GPS call that stores nothing. *)
Definition gga_silent : GgaWrites := {|
  w_time := None; w_latitude := None; w_ns := None;
  w_longitude := None; w_ew := None; w_quality := None;
  w_sat_count := None; w_horz_acc := None; w_altitude := None;
  w_alt_unit := None; w_fix_check := None
|}.

(** A valid fix at latitude 37.7749 N, longitude -122.4194 (W). *)
Definition gga_fix : GgaWrites := {|
  w_time := Some (F32.lit 1234560 1);
  w_latitude := Some (F32.lit 377749 4);
  w_ns := Some "N"%char;
  w_longitude := Some (F32.lit (-1224194) 4);
  w_ew := Some "W"%char;
  w_quality := Some 1;
  w_sat_count := Some 8;
  w_horz_acc := Some (F32.lit 9 1);
  w_altitude := Some (F32.lit 154 1);
  w_alt_unit := Some "M"%char;
  w_fix_check := Some 1
|}.

(** Power 3.7 V, board 22.1 degrees, ambient read (77 F, 60 %), soil
    fraction 0.458, and the fix above. *)
Definition scenario : Collab := {|
  vol := Some (F32.lit 37 1);
  temp_sense := Some (F32.lit 221 1);
  getFahrenheit := 77;
  getHumidity := 60;
  soil_read := F32.lit 458 3;
  gga_sensing := gga_fix
|}.

(** The same published readings; the voltage read fails and the other
    GPS outputs differ or stay unwritten. *)
Definition scenario_other : Collab := {|
  vol := None;
  temp_sense := Some (F32.lit 221 1);
  getFahrenheit := 77;
  getHumidity := 60;
  soil_read := F32.lit 458 3;
  gga_sensing := {|
    w_time := None;
    w_latitude := Some (F32.lit 377749 4);
    w_ns := Some "S"%char;
    w_longitude := Some (F32.lit (-1224194) 4);
    w_ew := Some "E"%char;
    w_quality := Some 0;
    w_sat_count := Some 3;
    w_horz_acc := None;
    w_altitude := Some (F32.lit 20 0);
    w_alt_unit := None;
    w_fix_check := Some 0
  |}
|}.

(** Working variables left by some earlier, different iteration. *)
Definition vars_other : Vars := {|
  battery_voltage_v := F32.lit 41 1;
  board_temp_c := F32.lit 300 1;
  ambient_temp_c := F32.lit 100 1;
  relative_humidity_percent := F32.lit 990 1;
  gps_quality_flag := 2;
  gps_sat_count := 11;
  gps_fix_check := 1;
  gps_ns_indicator := "S"%char;
  gps_ew_indicator := "W"%char;
  gps_alt_unit := "M"%char;
  gps_time_utc := F32.lit 2359590 1;
  gps_latitude_deg := F32.lit (-335) 1;
  gps_longitude_deg := F32.lit 1512 1;
  gps_horz_acc_m := F32.lit 12 1;
  gps_altitude_m := F32.lit 580 1
|}.

(** Every pointer-reporting driver stays silent. *)
Definition all_silent : Collab := {|
  vol := None;
  temp_sense := None;
  getFahrenheit := 77;
  getHumidity := 60;
  soil_read := F32.lit 458 3;
  gga_sensing := gga_silent
|}.

(** The board-temperature driver stores an infinity. *)
Definition infinite_board_temp : Collab := {|
  vol := None;
  temp_sense := Some (F32.Num (S754_infinity false));
  getFahrenheit := 77;
  getHumidity := 60;
  soil_read := F32.lit 458 3;
  gga_sensing := gga_silent
|}.

(** The board-temperature driver stores a NaN with the sign bit set and
    the analog input returns one. *)
Definition negative_nan_readings : Collab := {|
  vol := None;
  temp_sense := Some F32.NegNaN;
  getFahrenheit := 77;
  getHumidity := 60;
  soil_read := F32.NegNaN;
  gga_sensing := gga_silent
|}.

(** The example line of the wire-format documentation. *)
Definition documented_example : string :=
  c_literal "device_id=MIZU_0001,ambient_temp=25.50,humidity=60.20,soil_moisture=45.80,soil_temp=22.10,wind_speed=5.20,longitude=-122.419400,latitude=37.774900\r\n".

(** Two iterations' collaborators that agree on everything the line is
    made of: ambient reading, humidity, soil fraction, board
    temperature, latitude and longitude. *)
Definition same_published (c1 c2 : Collab) : Prop :=
  getFahrenheit c1 = getFahrenheit c2 /\
  getHumidity c1 = getHumidity c2 /\
  soil_read c1 = soil_read c2 /\
  temp_sense c1 = temp_sense c2 /\
  w_latitude (gga_sensing c1) = w_latitude (gga_sensing c2) /\
  w_longitude (gga_sensing c1) = w_longitude (gga_sensing c2).

(** Two sets of working variables that agree on the ones the line
    reads. *)
Definition same_carried (v1 v2 : Vars) : Prop :=
  board_temp_c v1 = board_temp_c v2 /\
  gps_latitude_deg v1 = gps_latitude_deg v2 /\
  gps_longitude_deg v1 = gps_longitude_deg v2.

(** Two iterations that see the same published readings: the same
    return values, and the same board temperature, latitude and
    longitude once the drivers have had their turn. *)
Definition same_seen (v1 : Vars) (c1 : Collab) (v2 : Vars) (c2 : Collab) : Prop :=
  getFahrenheit c1 = getFahrenheit c2 /\
  getHumidity c1 = getHumidity c2 /\
  soil_read c1 = soil_read c2 /\
  stored (board_temp_c v1) (temp_sense c1) = stored (board_temp_c v2) (temp_sense c2) /\
  stored (gps_latitude_deg v1) (w_latitude (gga_sensing c1)) =
    stored (gps_latitude_deg v2) (w_latitude (gga_sensing c2)) /\
  stored (gps_longitude_deg v1) (w_longitude (gga_sensing c1)) =
    stored (gps_longitude_deg v2) (w_longitude (gga_sensing c2)).

(** *** The pointer-fed fields over a run *)

(** The fields read from variables that a driver fills through a
    pointer. *)
Definition pointer_fed (f : field_id) : bool :=
  match f with
  | SoilTemp | Longitude | Latitude => true
  | _ => false
  end.

(** What the driver of a pointer-fed field stores in an iteration. *)
Definition report_of (c : Collab) (f : field_id) : option F32.float32 :=
  match f with
  | SoilTemp => temp_sense c
  | Longitude => w_longitude (gga_sensing c)
  | Latitude => w_latitude (gga_sensing c)
  | _ => None
  end.

(** The value stored most recently, up to and including iteration
    [i]. *)
Fixpoint last_report (env : nat -> Collab) (f : field_id) (i : nat) : option F32.float32 :=
  match i with
  | O => report_of (env O) f
  | S j =>
      match report_of (env (S j)) f with
      | Some x => Some x
      | None => last_report env f j
      end
  end.

(** *** Counting calls *)



(** The drivers of an iteration store genuine binary32 values. *)
Definition stores_binary32 (c : Collab) : Prop :=
  forall f x, report_of c f = Some x -> valid_binary F32.prec F32.emax x = true.

End Hub.

(** * Properties *)

(** Settles a goal about a decimal digit [d] by trying its ten values. *)
Ltac each_digit d :=
  let E := fresh "E" in
  assert (E : d = 0 \/ d = 1 \/ d = 2 \/ d = 3 \/ d = 4 \/
              d = 5 \/ d = 6 \/ d = 7 \/ d = 8 \/ d = 9) by lia;
  repeat (destruct E as [E | E]; [subst d; reflexivity|]);
  subst d; reflexivity.

(** ** Strings *)

Section StringFacts.

Import Wire.

Lemma append_empty_r (s : string) : s ++ "" = s.
Proof. induction s as [|c s IH]; simpl; congruence. Qed.

Lemma append_assoc (s t u : string) : (s ++ t) ++ u = s ++ t ++ u.
Proof. induction s as [|c s IH]; simpl; congruence. Qed.

Lemma length_append (s t : string) :
  String.length (s ++ t) = (String.length s + String.length t)%nat.
Proof. induction s as [|c s IH]; simpl; congruence. Qed.

Lemma all_chars_app (p : ascii -> bool) (s t : string) :
  all_chars p (s ++ t) = all_chars p s && all_chars p t.
Proof.
  induction s as [|c s IH]; simpl; [reflexivity|].
  rewrite IH. apply andb_assoc.
Qed.

Lemma all_chars_weaken (p q : ascii -> bool) (s : string) :
  (forall c, p c = true -> q c = true) ->
  all_chars p s = true -> all_chars q s = true.
Proof.
  intros Hpq. induction s as [|c s IH]; simpl; [reflexivity|].
  rewrite !andb_true_iff. intros [Hc Hs]. auto.
Qed.

Lemma split_no_sep (sep : ascii) (s : string) :
  all_chars (fun c => negb (Ascii.eqb c sep)) s = true ->
  split sep s = [s].
Proof.
  induction s as [|c s IH]; simpl; [reflexivity|].
  rewrite andb_true_iff, negb_true_iff. intros [Hc Hs].
  rewrite Hc, (IH Hs). reflexivity.
Qed.

Lemma split_app_sep (sep : ascii) (s t : string) :
  all_chars (fun c => negb (Ascii.eqb c sep)) s = true ->
  split sep (s ++ String sep t) = s :: split sep t.
Proof.
  induction s as [|c s IH]; simpl.
  - intros _. rewrite Ascii.eqb_refl. reflexivity.
  - rewrite andb_true_iff, negb_true_iff. intros [Hc Hs].
    rewrite Hc, (IH Hs). reflexivity.
Qed.

Lemma strip_crlf_app (body : string) :
  no_eol body = true -> strip_crlf (body ++ CRLF) = Some body.
Proof.
  unfold no_eol.
  induction body as [|c s IH]; simpl.
  - intros _. reflexivity.
  - rewrite andb_true_iff, negb_true_iff. unfold is_eol at 1.
    rewrite orb_false_iff. intros [[Hc _] Hs].
    rewrite Hc. simpl. rewrite (IH Hs). reflexivity.
Qed.

Lemma key_value_app (k v : string) :
  all_chars (fun c => negb (Ascii.eqb c "=")) k = true ->
  key_value (k ++ "=" ++ v) = Some (k, v).
Proof.
  change ("=" ++ v) with (String "=" v).
  induction k as [|c k IH]; simpl; [reflexivity|].
  rewrite andb_true_iff, negb_true_iff. intros [Hc Hk].
  rewrite Hc, (IH Hk). reflexivity.
Qed.

Lemma plain_not_comma (s : string) :
  all_chars plain_char s = true ->
  all_chars (fun c => negb (Ascii.eqb c ",")) s = true.
Proof.
  apply all_chars_weaken. intros c. unfold plain_char.
  destruct (Ascii.eqb c ","); simpl; [discriminate | reflexivity].
Qed.

Lemma plain_not_equals (s : string) :
  all_chars plain_char s = true ->
  all_chars (fun c => negb (Ascii.eqb c "=")) s = true.
Proof.
  apply all_chars_weaken. intros c. unfold plain_char.
  destruct (Ascii.eqb c ","), (Ascii.eqb c "="); simpl; (discriminate || reflexivity).
Qed.

Lemma plain_no_eol (s : string) :
  all_chars plain_char s = true -> no_eol s = true.
Proof.
  apply all_chars_weaken. intros c. unfold plain_char.
  destruct (Ascii.eqb c ","), (Ascii.eqb c "="), (is_eol c); simpl;
    (discriminate || reflexivity).
Qed.

Lemma plain_ascii7 (s : string) :
  all_chars plain_char s = true -> all_chars is_ascii7 s = true.
Proof.
  apply all_chars_weaken. intros c. unfold plain_char.
  rewrite andb_true_iff. tauto.
Qed.

Lemma join_fields_one (k v : string) :
  join_fields [(k, v)] = k ++ "=" ++ v.
Proof. reflexivity. Qed.

Lemma join_fields_more (k v : string) (kv : string * string)
      (rest : list (string * string)) :
  join_fields ((k, v) :: kv :: rest) = (k ++ "=" ++ v) ++ String "," (join_fields (kv :: rest)).
Proof. rewrite !append_assoc. reflexivity. Qed.

Lemma split_join_fields (kvs : list (string * string)) :
  kvs <> [] -> plain_fields kvs ->
  split "," (join_fields kvs) = map (fun kv => fst kv ++ "=" ++ snd kv) kvs.
Proof.
  induction kvs as [|[k v] rest IH]; [congruence|].
  intros _ Hall. inversion Hall as [|? ? [Hk Hv] Hrest]; subst.
  simpl in Hk, Hv.
  assert (Hkv : all_chars (fun c => negb (Ascii.eqb c ",")) (k ++ "=" ++ v) = true).
  { rewrite !all_chars_app, (plain_not_comma _ Hk), (plain_not_comma _ Hv).
    reflexivity. }
  destruct rest as [|kv' rest'].
  - rewrite join_fields_one. apply split_no_sep, Hkv.
  - rewrite join_fields_more, (split_app_sep _ _ _ Hkv).
    rewrite IH by (congruence || assumption). reflexivity.
Qed.

Lemma all_some_key_value (kvs : list (string * string)) :
  plain_fields kvs ->
  all_some (map key_value (map (fun kv => fst kv ++ "=" ++ snd kv) kvs)) = Some kvs.
Proof.
  induction 1 as [|[k v] rest [Hk _] _ IH]; [reflexivity|].
  cbn [map fst snd all_some] in *.
  rewrite (key_value_app _ _ (plain_not_equals _ Hk)), IH.
  reflexivity.
Qed.

Lemma join_fields_no_eol (kvs : list (string * string)) :
  plain_fields kvs -> no_eol (join_fields kvs) = true.
Proof.
  unfold no_eol.
  induction 1 as [|[k v] rest [Hk Hv] _ IH]; [reflexivity|].
  apply plain_no_eol in Hk, Hv. unfold no_eol in Hk, Hv. cbn [fst snd] in Hk, Hv.
  destruct rest as [|kv' rest'].
  - rewrite join_fields_one, !all_chars_app, Hk, Hv. reflexivity.
  - rewrite join_fields_more, !all_chars_app, Hk, Hv.
    cbn [all_chars]. rewrite IH. reflexivity.
Qed.

Lemma join_fields_ascii7 (kvs : list (string * string)) :
  plain_fields kvs -> all_chars is_ascii7 (join_fields kvs) = true.
Proof.
  induction 1 as [|[k v] rest [Hk Hv] _ IH]; [reflexivity|].
  apply plain_ascii7 in Hk, Hv. cbn [fst snd] in Hk, Hv.
  destruct rest as [|kv' rest'].
  - rewrite join_fields_one, !all_chars_app, Hk, Hv. reflexivity.
  - rewrite join_fields_more, !all_chars_app, Hk, Hv.
    cbn [all_chars]. rewrite IH. reflexivity.
Qed.

(** Reading back a rendered line gives its fields, in order. *)
Lemma parse_render (kvs : list (string * string)) :
  kvs <> [] -> plain_fields kvs -> parse_line (render kvs) = Some kvs.
Proof.
  intros Hne Hall. unfold parse_line, render.
  rewrite strip_crlf_app by (apply join_fields_no_eol; assumption).
  rewrite split_join_fields by assumption.
  apply all_some_key_value; assumption.
Qed.

End StringFacts.

(** ** The [%.Nf] conversion *)

Section ConversionFacts.

Import Printf Wire.

Lemma digit_char_is_digit (d : Z) :
  0 <= d < 10 -> is_digit (digit_char d) = true.
Proof. intros H. each_digit d. Qed.

Lemma mod10_is_digit (n : Z) : is_digit (digit_char (n mod 10)) = true.
Proof. apply digit_char_is_digit, Z.mod_pos_bound. lia. Qed.

Lemma dec_digits_all_digits (fuel : nat) :
  forall n acc,
    all_chars is_digit acc = true ->
    all_chars is_digit (dec_digits fuel n acc) = true.
Proof.
  induction fuel as [|k IH]; intros n acc Hacc; cbn [dec_digits]; [assumption|].
  assert (Hacc' : all_chars is_digit (String (digit_char (n mod 10)) acc) = true).
  { cbn [all_chars]. rewrite mod10_is_digit, Hacc. reflexivity. }
  destruct (n / 10 =? 0); [exact Hacc' | apply IH, Hacc'].
Qed.

Lemma dec_digits_length (fuel : nat) :
  forall n acc, (String.length acc <= String.length (dec_digits fuel n acc))%nat.
Proof.
  induction fuel as [|k IH]; intros n acc; cbn [dec_digits]; [lia|].
  destruct (n / 10 =? 0); [cbn [String.length]; lia|].
  specialize (IH (n / 10) (String (digit_char (n mod 10)) acc)).
  cbn [String.length] in IH. lia.
Qed.

Lemma dec_all_digits (n : Z) : all_chars is_digit (dec n) = true.
Proof. apply dec_digits_all_digits. reflexivity. Qed.

Lemma dec_nonempty (n : Z) : (0 < String.length (dec n))%nat.
Proof.
  unfold dec. cbn [dec_digits].
  destruct (n / 10 =? 0); [cbn [String.length]; lia|].
  pose proof (dec_digits_length (Z.to_nat (Z.log2 n)) (n / 10)
                (String (digit_char (n mod 10)) "")) as H.
  cbn [String.length] in H. lia.
Qed.

Lemma frac_digits_all_digits (d : nat) (n : Z) :
  all_chars is_digit (frac_digits d n) = true.
Proof.
  induction d as [|k IH]; cbn [frac_digits all_chars]; [reflexivity|].
  rewrite mod10_is_digit, IH. reflexivity.
Qed.

Lemma frac_digits_length (d : nat) (n : Z) : String.length (frac_digits d n) = d.
Proof. induction d as [|k IH]; cbn [frac_digits String.length]; congruence. Qed.

Lemma skip_digits_app (ds : string) (c : ascii) (rest : string) :
  all_chars is_digit ds = true -> is_digit c = false ->
  skip_digits (ds ++ String c rest) = (String.length ds, String c rest).
Proof.
  intros Hds Hc. induction ds as [|a ds IH].
  - simpl. rewrite Hc. reflexivity.
  - simpl in Hds. apply andb_true_iff in Hds as [Ha Hds].
    simpl. rewrite Ha, (IH Hds). reflexivity.
Qed.

Lemma strip_sign_digits (s t : string) :
  (0 < String.length s)%nat -> all_chars is_digit s = true ->
  strip_sign (s ++ t) = s ++ t.
Proof.
  destruct s as [|c s]; simpl; [lia|].
  intros _ H. apply andb_true_iff in H as [Hc _].
  destruct (Ascii.eqb_spec c "-") as [->|_]; [discriminate Hc | reflexivity].
Qed.

Lemma strip_sign_text (sgn : bool) (s t : string) :
  (0 < String.length s)%nat -> all_chars is_digit s = true ->
  strip_sign (sign_text sgn ++ s ++ t) = s ++ t.
Proof.
  intros Hlen Hs. destruct sgn; simpl; [reflexivity|].
  apply strip_sign_digits; assumption.
Qed.

Lemma fixed_text_fixed_point (sgn : bool) (n : Z) (d : nat) :
  fixed_point (S d) (fixed_text sgn n (S d)) = true.
Proof.
  unfold fixed_point, fixed_text.
  rewrite strip_sign_text by (apply dec_nonempty || apply dec_all_digits).
  rewrite skip_digits_app by (apply dec_all_digits || reflexivity).
  rewrite frac_digits_all_digits, frac_digits_length, Nat.eqb_refl.
  pose proof (dec_nonempty (n / 10 ^ Z.of_nat (S d))) as Hlen.
  apply Nat.ltb_lt in Hlen. rewrite Hlen. reflexivity.
Qed.

(** A finite value is written with exactly [N] fraction digits. *)
Lemma fmt_f_fixed_point (d : nat) (x : F32.float32) :
  F32.is_finite x = true -> fixed_point (S d) (fmt_f (S d) x) = true.
Proof.
  destruct x as [[s|s| |s m e]|]; cbn [F32.spec F32.is_finite fmt_f];
    try discriminate; intros _; apply fixed_text_fixed_point.
Qed.

Lemma digit_is_value_char (s : string) :
  all_chars is_digit s = true -> all_chars value_char s = true.
Proof.
  apply all_chars_weaken. intros c H. unfold value_char. rewrite H. reflexivity.
Qed.

Lemma sign_text_value_char (sgn : bool) : all_chars value_char (sign_text sgn) = true.
Proof. destruct sgn; reflexivity. Qed.

Lemma fixed_text_value_char (sgn : bool) (n : Z) (d : nat) :
  all_chars value_char (fixed_text sgn n d) = true.
Proof.
  unfold fixed_text.
  rewrite !all_chars_app, sign_text_value_char,
    (digit_is_value_char _ (dec_all_digits _)).
  destruct d as [|k]; [reflexivity|].
  cbn [all_chars]. rewrite (digit_is_value_char _ (frac_digits_all_digits _ _)).
  reflexivity.
Qed.

Lemma fmt_f_value_char (d : nat) (x : F32.float32) :
  all_chars value_char (fmt_f d x) = true.
Proof.
  destruct x as [[s|s| |s m e]|]; cbn [fmt_f].
  - apply fixed_text_value_char.
  - destruct s; reflexivity.
  - reflexivity.
  - apply fixed_text_value_char.
  - reflexivity.
Qed.

Lemma value_char_plain (c : ascii) : value_char c = true -> plain_char c = true.
Proof.
  destruct c as [b0 b1 b2 b3 b4 b5 b6 b7].
  destruct b0, b1, b2, b3, b4, b5, b6, b7; vm_compute; congruence.
Qed.

(** No conversion of a [double] can produce a separator of the line. *)
Lemma fmt_f_plain (d : nat) (x : F32.float32) :
  all_chars plain_char (fmt_f d x) = true.
Proof.
  apply (all_chars_weaken value_char); [exact value_char_plain|].
  apply fmt_f_value_char.
Qed.

End ConversionFacts.

(** ** The digits written denote the number *)

Section DecimalDigits.

Import Printf Wire.

Lemma digit_val_char (d : Z) :
  0 <= d < 10 -> Z.of_nat (digit_val (digit_char d)) = d.
Proof. intros H. each_digit d. Qed.

Lemma digits_value_app (s t : string) (acc : Z) :
  digits_value (s ++ t) acc = digits_value t (digits_value s acc).
Proof.
  revert acc. induction s as [|c s IH]; intros acc; cbn [append digits_value];
    [reflexivity | apply IH].
Qed.

(** [dec_digits] writes [n] in front of [acc] when its fuel covers the
    binary length of [n]. *)
Lemma dec_digits_value (fuel : nat) :
  forall n acc,
    0 <= n < 2 ^ Z.of_nat fuel ->
    exists ds,
      dec_digits fuel n acc = ds ++ acc /\
      forall a, digits_value ds a = a * 10 ^ Z.of_nat (String.length ds) + n.
Proof.
  induction fuel as [|k IH]; intros n acc Hn.
  - exists EmptyString. split; [reflexivity|]. intros a.
    change (2 ^ Z.of_nat 0) with 1 in Hn. cbn [digits_value String.length].
    change (10 ^ Z.of_nat 0) with 1. lia.
  - cbn [dec_digits].
    pose proof (Z.div_mod n 10 ltac:(lia)) as Hdm.
    pose proof (Z.mod_pos_bound n 10 ltac:(lia)) as Hmod.
    destruct (Z.eqb_spec (n / 10) 0) as [Hq|Hq].
    + exists (String (digit_char (n mod 10)) EmptyString). split; [reflexivity|].
      intros a. cbn [digits_value String.length].
      rewrite digit_val_char by lia. change (10 ^ Z.of_nat 1) with 10. lia.
    + rewrite Nat2Z.inj_succ, Z.pow_succ_r in Hn by lia.
      assert (Hq' : 0 <= n / 10 < 2 ^ Z.of_nat k).
      { split; [apply Z.div_pos; lia|]. apply Z.div_lt_upper_bound; lia. }
      destruct (IH (n / 10) (String (digit_char (n mod 10)) acc) Hq') as (ds & Hds & Hval).
      exists (ds ++ String (digit_char (n mod 10)) EmptyString). split.
      * rewrite Hds, append_assoc. reflexivity.
      * intros a. rewrite digits_value_app, Hval. cbn [digits_value].
        rewrite digit_val_char by lia.
        rewrite length_append. cbn [String.length].
        rewrite Nat.add_1_r, Nat2Z.inj_succ, Z.pow_succ_r by lia. lia.
Qed.

Lemma frac_digits_value (d : nat) (n : Z) :
  forall a, digits_value (frac_digits d n) a = a * 10 ^ Z.of_nat d + n mod 10 ^ Z.of_nat d.
Proof.
  induction d as [|k IH]; intros a.
  - cbn [frac_digits digits_value]. change (10 ^ Z.of_nat 0) with 1.
    rewrite Z.mod_1_r. lia.
  - cbn [frac_digits digits_value].
    assert (Hp : 0 < 10 ^ Z.of_nat k) by (apply Z.pow_pos_nonneg; lia).
    rewrite IH, digit_val_char by (apply Z.mod_pos_bound; lia).
    rewrite Nat2Z.inj_succ, Z.pow_succ_r by lia.
    rewrite (Z.mul_comm 10 (10 ^ Z.of_nat k)), Z.rem_mul_r by lia. lia.
Qed.

(** The integer part is written in full: its digits denote it. *)
Lemma dec_value (n : Z) : 0 <= n -> digits_value (dec n) 0 = n.
Proof.
  intros Hn. unfold dec.
  assert (Hfuel : 0 <= n < 2 ^ Z.of_nat (S (Z.to_nat (Z.log2 n)))).
  { split; [exact Hn|].
    rewrite Nat2Z.inj_succ, Z2Nat.id by apply Z.log2_nonneg.
    destruct (Z.eq_dec n 0) as [->|Hne]; [reflexivity|].
    apply Z.log2_spec. lia. }
  destruct (dec_digits_value _ n EmptyString Hfuel) as (ds & Hds & Hval).
  rewrite Hds, append_empty_r, Hval. lia.
Qed.

(** The digits of a fixed-point text, point left out, denote the
    scaled integer it was made from. *)
Lemma fixed_digits_value (n : Z) (d : nat) :
  0 <= n ->
  digits_value (dec (n / 10 ^ Z.of_nat d) ++ frac_digits d n) 0 = n.
Proof.
  intros Hn.
  assert (Hp : 0 < 10 ^ Z.of_nat d) by (apply Z.pow_pos_nonneg; lia).
  rewrite digits_value_app, dec_value, frac_digits_value by (apply Z.div_pos; lia).
  pose proof (Z.div_mod n (10 ^ Z.of_nat d) ltac:(lia)). lia.
Qed.

End DecimalDigits.


(** ** The value of an operation *)

(** The sign of a NaN apart, the operations on [F32.float32] are those
    of [SpecFloat]. *)

Section Values.

Lemma spec_of_int (n : Z) :
  F32.spec (F32.of_int n) = binary_normalize F32.prec F32.emax n 0 false.
Proof. reflexivity. Qed.

Lemma spec_sub (x y : F32.float32) :
  F32.spec (F32.sub x y) = SFsub F32.prec F32.emax x y.
Proof. destruct x as [[s|s| |s m e]|], y as [[s'|s'| |s' m' e']|]; reflexivity. Qed.

Lemma spec_mul (x y : F32.float32) :
  F32.spec (F32.mul x y) = SFmul F32.prec F32.emax x y.
Proof. destruct x as [[s|s| |s m e]|], y as [[s'|s'| |s' m' e']|]; reflexivity. Qed.

Lemma spec_div (x y : F32.float32) :
  F32.spec (F32.div x y) = SFdiv F32.prec F32.emax x y.
Proof. destruct x as [[s|s| |s m e]|], y as [[s'|s'| |s' m' e']|]; reflexivity. Qed.

End Values.


(** ** binary32 conversion of integers *)

Section FloatFacts.

Lemma digits2_pos_bounds (p : positive) :
  2 ^ (Zpos (digits2_pos p) - 1) <= Zpos p < 2 ^ Zpos (digits2_pos p).
Proof.
  induction p as [p IH|p IH|]; cbn [digits2_pos].
  - rewrite Pos2Z.inj_succ.
    replace (Z.succ (Zpos (digits2_pos p)) - 1) with (Z.succ (Zpos (digits2_pos p) - 1)) by lia.
    rewrite !Z.pow_succ_r by lia. lia.
  - rewrite Pos2Z.inj_succ.
    replace (Z.succ (Zpos (digits2_pos p)) - 1) with (Z.succ (Zpos (digits2_pos p) - 1)) by lia.
    rewrite !Z.pow_succ_r by lia. lia.
  - change (2 ^ (1 - 1)) with 1. change (2 ^ 1) with 2. lia.
Qed.

Lemma Zdigits2_upper (m k : Z) : 0 <= k -> 0 <= m < 2 ^ k -> 0 <= Zdigits2 m <= k.
Proof.
  intros Hk [Hm Hlt]. destruct m as [|p|p]; cbn [Zdigits2]; [lia| |lia].
  pose proof (digits2_pos_bounds p) as [Hlo _].
  split; [lia|].
  assert (2 ^ (Zpos (digits2_pos p) - 1) < 2 ^ k) by lia.
  apply Z.pow_lt_mono_r_iff in H; lia.
Qed.

Lemma iter_xO_value (k p : positive) :
  Zpos (Pos.iter xO p k) = Zpos p * 2 ^ Zpos k.
Proof.
  induction k as [|k IH] using Pos.peano_ind.
  - cbn [Pos.iter]. change (2 ^ 1) with 2. lia.
  - rewrite Pos.iter_succ, Pos2Z.inj_succ, Z.pow_succ_r by lia.
    rewrite Pos2Z.inj_xO, IH. lia.
Qed.

Lemma iter_xO_digits (k p : positive) :
  Zpos (digits2_pos (Pos.iter xO p k)) = Zpos (digits2_pos p) + Zpos k.
Proof.
  induction k as [|k IH] using Pos.peano_ind.
  - cbn [Pos.iter digits2_pos]. lia.
  - rewrite Pos.iter_succ. cbn [digits2_pos]. rewrite !Pos2Z.inj_succ, IH. lia.
Qed.

Lemma binary_round_aux_canonical (s : bool) (m : positive) (e : Z) :
  fexp F32.prec F32.emax (Zpos (digits2_pos m) + e) = e ->
  e <= 104 ->
  binary_round_aux F32.prec F32.emax s (Zpos m) e loc_Exact = S754_finite s m e.
Proof.
  intros Hcan He.
  unfold binary_round_aux, shr_fexp. cbn [Zdigits2 shr_record_of_loc].
  rewrite Hcan, Z.sub_diag. cbn [shr shr_m loc_of_shr_record round_nearest_even Zdigits2 shr_record_of_loc].
  rewrite Hcan, Z.sub_diag. cbn [shr shr_m].
  replace (e <=? F32.emax - F32.prec) with true; [reflexivity|].
  symmetry. apply Z.leb_le. unfold F32.emax, F32.prec. lia.
Qed.

Lemma shr_1_bounds (mrs : shr_record) :
  0 <= shr_m mrs -> 0 <= shr_m (shr_1 mrs) <= shr_m mrs.
Proof.
  destruct mrs as [m r s]. cbn [shr_m].
  destruct m as [|[p|p|]|[p|p|]]; cbn [shr_1 shr_m]; lia.
Qed.

Lemma iter_shr_1_bounds (n : positive) :
  forall mrs, 0 <= shr_m mrs -> 0 <= shr_m (iter_pos shr_1 n mrs) <= shr_m mrs.
Proof.
  induction n as [n IH|n IH|]; intros mrs Hm; cbn [iter_pos].
  - pose proof (shr_1_bounds mrs Hm) as H1.
    pose proof (IH (shr_1 mrs) (proj1 H1)) as H2.
    pose proof (IH _ (proj1 H2)) as H3. lia.
  - pose proof (IH mrs Hm) as H2.
    pose proof (IH _ (proj1 H2)) as H3. lia.
  - apply shr_1_bounds, Hm.
Qed.

Lemma shr_bounds (mrs : shr_record) (e n : Z) :
  0 <= shr_m mrs ->
  0 <= shr_m (fst (shr mrs e n)) <= shr_m mrs /\
  e <= snd (shr mrs e n) <= Z.max e (e + n).
Proof.
  intros Hm. destruct n as [|p|p]; cbn [shr fst snd]; try lia.
  pose proof (iter_shr_1_bounds p mrs Hm). lia.
Qed.

Lemma shr_record_of_loc_m (m : Z) (l : location) :
  shr_m (shr_record_of_loc m l) = m.
Proof. destruct l as [|[| |]]; reflexivity. Qed.

Lemma round_nearest_even_bounds (m : Z) (l : location) :
  m <= round_nearest_even m l <= m + 1.
Proof.
  destruct l as [|[| |]]; cbn [round_nearest_even]; try lia.
  destruct (Z.even m); lia.
Qed.

Lemma fexp_unfold (x : Z) :
  fexp F32.prec F32.emax x = Z.max (x - 24) (-149).
Proof. reflexivity. Qed.

(** Rounding a whole number gives a whole number, and in the range of
    [int] and well beyond it never overflows. *)
Lemma binary_round_aux_integral (s : bool) (m e : Z) (l : location) :
  0 <= m < 2 ^ 32 -> 0 <= e <= 32 ->
  F32.is_integral (binary_round_aux F32.prec F32.emax s m e l) = true.
Proof.
  intros Hm He. unfold binary_round_aux, shr_fexp.
  set (n1 := fexp F32.prec F32.emax (Zdigits2 m + e) - e).
  pose proof (shr_bounds (shr_record_of_loc m l) e n1) as B1.
  rewrite shr_record_of_loc_m in B1. specialize (B1 (proj1 Hm)).
  destruct (shr (shr_record_of_loc m l) e n1) as [mrs1 e1]. cbn [fst snd] in B1.
  set (m1 := round_nearest_even (shr_m mrs1) (loc_of_shr_record mrs1)).
  pose proof (round_nearest_even_bounds (shr_m mrs1) (loc_of_shr_record mrs1)) as R.
  fold m1 in R.
  set (n2 := fexp F32.prec F32.emax (Zdigits2 m1 + e1) - e1).
  assert (Hm1 : 0 <= m1) by lia.
  pose proof (shr_bounds (shr_record_of_loc m1 loc_Exact) e1 n2) as B2.
  rewrite shr_record_of_loc_m in B2. specialize (B2 Hm1).
  destruct (shr (shr_record_of_loc m1 loc_Exact) e1 n2) as [mrs2 e2].
  cbn [fst snd] in B2.
  pose proof (Zdigits2_upper m 32 ltac:(lia) Hm) as D0.
  assert (Hm1' : 0 <= m1 < 2 ^ 33).
  { change (2 ^ 33) with (2 * 2 ^ 32). lia. }
  pose proof (Zdigits2_upper m1 33 ltac:(lia) Hm1') as D1.
  subst n1 n2. rewrite fexp_unfold in B1, B2.
  assert (He2 : 0 <= e2 <= 104) by lia.
  destruct (shr_m mrs2) as [|p|p] eqn:Em2; [reflexivity| |lia].
  replace (e2 <=? F32.emax - F32.prec) with true
    by (symmetry; apply Z.leb_le; unfold F32.emax, F32.prec; lia).
  unfold F32.is_integral.
  replace (0 <=? e2) with true by (symmetry; apply Z.leb_le; lia).
  reflexivity.
Qed.

Lemma fexp_digits (p : positive) :
  fexp F32.prec F32.emax (Zpos (digits2_pos p) + 0) = Zpos (digits2_pos p) - 24.
Proof. rewrite fexp_unfold. lia. Qed.

(** [binary_round] of a mantissa of at most 24 digits is exact. *)
Lemma binary_round_exact (s : bool) (p : positive) :
  Zpos (digits2_pos p) <= 24 ->
  exists m e,
    binary_round F32.prec F32.emax s p 0 = S754_finite s m e /\
    -23 <= e <= 0 /\ Zpos m = Zpos p * 2 ^ (- e).
Proof.
  intros Hd. unfold binary_round, shl_align. rewrite fexp_digits, Z.sub_0_r.
  destruct (Zpos (digits2_pos p) - 24) as [|k|k] eqn:Ek; [|lia|].
  - exists p, 0. split; [|split; [lia|change (2 ^ (- 0)) with 1; lia]].
    apply binary_round_aux_canonical; [|lia].
    rewrite fexp_unfold. lia.
  - exists (Pos.iter xO p k), (Zneg k). split; [|split].
    + apply binary_round_aux_canonical; [|lia].
      rewrite fexp_unfold, iter_xO_digits. lia.
    + lia.
    + rewrite iter_xO_value. reflexivity.
Qed.

Lemma binary_round_integral (s : bool) (p : positive) :
  Zpos p <= 2 ^ 31 ->
  F32.is_integral (binary_round F32.prec F32.emax s p 0) = true.
Proof.
  intros Hp.
  destruct (Z_le_gt_dec (Zpos (digits2_pos p)) 24) as [Hd|Hd].
  - destruct (binary_round_exact s p Hd) as (m & e & -> & He & Hm).
    unfold F32.is_integral. rewrite Hm, Z.mod_mul by lia.
    apply orb_true_r.
  - unfold binary_round, shl_align. rewrite fexp_digits, Z.sub_0_r.
    destruct (Zpos (digits2_pos p) - 24) as [|k|k] eqn:Ek; try lia.
    apply binary_round_aux_integral; lia.
Qed.

Lemma digits_below_2p24 (p : positive) :
  Zpos p < 2 ^ 24 -> Zpos (digits2_pos p) <= 24.
Proof.
  intros Hp. pose proof (digits2_pos_bounds p) as [Hlo _].
  assert (H : 2 ^ (Zpos (digits2_pos p) - 1) < 2 ^ 24) by lia.
  apply Z.pow_lt_mono_r_iff in H; lia.
Qed.

Lemma of_int_integral (n : Z) :
  - 2 ^ 31 <= n < 2 ^ 31 -> F32.is_integral (F32.of_int n) = true.
Proof.
  intros Hn. unfold F32.of_int; cbn [F32.spec]; unfold binary_normalize.
  destruct n as [|p|p]; [reflexivity| |]; apply binary_round_integral; lia.
Qed.

Lemma of_int_exact (n : Z) :
  - 2 ^ 24 < n < 2 ^ 24 ->
  F32.is_integral (F32.of_int n) = true /\ F32.to_Z (F32.of_int n) = n.
Proof.
  intros Hn. split; [apply of_int_integral; lia|].
  unfold F32.of_int; cbn [F32.spec]; unfold binary_normalize.
  destruct n as [|p|p]; [reflexivity| |].
  all: match goal with
       | |- F32.to_Z (binary_round _ _ ?s _ _) = _ =>
           destruct (binary_round_exact s p (digits_below_2p24 p ltac:(lia)))
             as (m & e & -> & He & Hm)
       end.
  all: unfold F32.to_Z; replace (0 <=? e) with (e =? 0) by lia.
  all: destruct (Z.eqb_spec e 0) as [->|Hne];
    [change (2 ^ (- 0)) with 1 in Hm; change (2 ^ 0) with 1; lia|].
  all: rewrite Hm, Z.div_mul by lia; lia.
Qed.

Lemma of_int_signbit (n : Z) :
  - 2 ^ 24 < n < 2 ^ 24 -> F32.signbit (F32.of_int n) = (n <? 0).
Proof.
  intros Hn. unfold F32.of_int; cbn [F32.spec]; unfold binary_normalize.
  destruct n as [|p|p]; [reflexivity| |].
  - destruct (binary_round_exact false p (digits_below_2p24 p ltac:(lia)))
      as (m & e & -> & _). reflexivity.
  - destruct (binary_round_exact true p (digits_below_2p24 p ltac:(lia)))
      as (m & e & -> & _). reflexivity.
Qed.

End FloatFacts.

(** ** Rounding keeps integer bounds *)

Section RoundingBounds.

Lemma iter_pos_invariant {A : Type} (f : A -> A) (P : Z -> A -> Prop) :
  (forall j x, 0 <= j -> P j x -> P (j + 1) (f x)) ->
  forall n j x, 0 <= j -> P j x -> P (j + Zpos n) (iter_pos f n x).
Proof.
  intros Hstep. induction n as [n IH|n IH|]; intros j x Hj Hx; cbn [iter_pos].
  - replace (j + Zpos n~1) with (j + 1 + Zpos n + Zpos n) by lia.
    apply IH; [lia|]. apply IH; [lia|]. apply Hstep; assumption.
  - replace (j + Zpos n~0) with (j + Zpos n + Zpos n) by lia.
    apply IH; [lia|]. apply IH; assumption.
  - apply Hstep; assumption.
Qed.

Lemma shr_1_fields (m : Z) (r s : bool) :
  0 <= m ->
  shr_1 (Build_shr_record m r s) = Build_shr_record (m / 2) (Z.odd m) (r || s).
Proof.
  intros Hm. destruct m as [|[p|p|]|p]; try lia; cbn [shr_1]; f_equal.
  - rewrite Pos2Z.inj_xI. apply Z.div_unique with (r := 1); lia.
  - rewrite Pos2Z.inj_xO. apply Z.div_unique with (r := 0); lia.
Qed.

Lemma shifted_step (M : Z) (j : Z) (mrs : shr_record) :
  0 <= M -> 0 <= j -> F32.shifted M j mrs -> F32.shifted M (j + 1) (shr_1 mrs).
Proof.
  intros HM Hj [Hm Hex]. destruct mrs as [m r s]. cbn [shr_m shr_r shr_s] in *.
  assert (Hp : 0 < 2 ^ j) by (apply Z.pow_pos_nonneg; lia).
  assert (Hm0 : 0 <= m) by (subst m; apply Z.div_pos; lia).
  rewrite (shr_1_fields m r s Hm0). unfold F32.shifted. cbn [shr_m shr_r shr_s].
  rewrite Z.pow_add_r, Z.pow_1_r by lia. split.
  - rewrite Hm, Z.div_div by lia. reflexivity.
  - intros Hmod.
    assert (Hdiv : M = 2 ^ j * 2 * (M / (2 ^ j * 2)))
      by (pose proof (Z.div_mod M (2 ^ j * 2) ltac:(lia)); lia).
    assert (Hmj : M mod 2 ^ j = 0).
    { rewrite Hdiv. replace (2 ^ j * 2 * (M / (2 ^ j * 2)))
        with (2 * (M / (2 ^ j * 2)) * 2 ^ j) by ring.
      apply Z.mod_mul. lia. }
    destruct (Hex Hmj) as [-> ->]. split; [|reflexivity].
    rewrite Hm. rewrite Hdiv at 1.
    replace (2 ^ j * 2 * (M / (2 ^ j * 2))) with (2 * (M / (2 ^ j * 2)) * 2 ^ j) by ring.
    rewrite Z.div_mul by lia. rewrite Z.odd_mul. reflexivity.
Qed.

Lemma shifted_iter (M : Z) (n : positive) :
  0 <= M ->
  F32.shifted M (Zpos n) (iter_pos shr_1 n (Build_shr_record M false false)).
Proof.
  intros HM.
  apply (iter_pos_invariant shr_1 (F32.shifted M)
           (fun j x Hj => shifted_step M j x HM Hj) n 0); [lia|].
  split; cbn [shr_m shr_r shr_s].
  - change (2 ^ 0) with 1. rewrite Z.div_1_r. reflexivity.
  - intros _. split; reflexivity.
Qed.

(** Rounding after an exact right shift does not pass an integer the
    unF32.shifted mantissa does not pass. *)
Lemma round_after_shift (M K : Z) (n : positive) :
  0 <= M -> M <= K * 2 ^ Zpos n ->
  let mrs := iter_pos shr_1 n (Build_shr_record M false false) in
  0 <= round_nearest_even (shr_m mrs) (loc_of_shr_record mrs) <= K.
Proof.
  intros HM HK mrs.
  destruct (shifted_iter M n HM) as [Hm Hex]. fold mrs in Hm, Hex.
  assert (Hp : 0 < 2 ^ Zpos n) by (apply Z.pow_pos_nonneg; lia).
  pose proof (round_nearest_even_bounds (shr_m mrs) (loc_of_shr_record mrs)) as R.
  assert (Hq : 0 <= M / 2 ^ Zpos n) by (apply Z.div_pos; lia).
  assert (HqK : M / 2 ^ Zpos n <= K).
  { apply Z.div_le_upper_bound; lia. }
  split; [lia|].
  destruct (Z.eq_dec (M / 2 ^ Zpos n) K) as [E|E]; [|lia].
  assert (Hmod : M mod 2 ^ Zpos n = 0).
  { pose proof (Z.div_mod M (2 ^ Zpos n) ltac:(lia)) as Hdm.
    pose proof (Z.mod_pos_bound M (2 ^ Zpos n) Hp). nia. }
  destruct (Hex Hmod) as [Hr Hs].
  destruct mrs as [m r s]. cbn [shr_m shr_r shr_s] in *. subst r s.
  cbn [loc_of_shr_record round_nearest_even]. lia.
Qed.

Lemma digits_exponent_bound (m e k : Z) :
  0 < m -> e <= 0 -> 0 <= k < 2 ^ 24 -> m <= k * 2 ^ (- e) ->
  Zdigits2 m + e <= 24.
Proof.
  intros Hm He Hk Hle. destruct m as [|p|p]; try lia. cbn [Zdigits2].
  pose proof (digits2_pos_bounds p) as [Hlo _].
  assert (Hp : 0 < 2 ^ (- e)) by (apply Z.pow_pos_nonneg; lia).
  assert (H : 2 ^ (Zpos (digits2_pos p) - 1) < 2 ^ (24 - e)).
  { replace (24 - e) with (24 + - e) by lia. rewrite Z.pow_add_r by lia. nia. }
  apply Z.pow_lt_mono_r_iff in H; lia.
Qed.

(** One [shr_fexp] step keeps a mantissa under an integer bound. *)
Lemma shr_fexp_le_int (m e k : Z) :
  0 <= m -> e <= 0 -> 0 <= k < 2 ^ 24 -> m <= k * 2 ^ (- e) ->
  let '(mrs, e') := shr_fexp F32.prec F32.emax m e loc_Exact in
  let m' := round_nearest_even (shr_m mrs) (loc_of_shr_record mrs) in
  0 <= shr_m mrs <= m' /\ e <= e' <= 0 /\ m' <= k * 2 ^ (- e').
Proof.
  intros Hm He Hk Hle. unfold shr_fexp. cbn [shr_record_of_loc].
  destruct (Z.eq_dec m 0) as [->|Hm0].
  - assert (Hz : forall n, iter_pos shr_1 n (Build_shr_record 0 false false)
                           = Build_shr_record 0 false false).
    { induction n as [n IH|n IH|]; cbn [iter_pos shr_1 orb]; rewrite ?IH; reflexivity. }
    cbn [Zdigits2]. rewrite fexp_unfold.
    destruct (Z.max (0 + e - 24) (-149) - e) as [|n|n] eqn:En; cbn [shr];
      rewrite ?Hz; cbn [shr_m loc_of_shr_record round_nearest_even].
    + split; [lia|]. split; lia.
    + assert (0 <= k * 2 ^ (- (e + Zpos n))).
      { apply Z.mul_nonneg_nonneg; [lia|]. apply Z.pow_nonneg. lia. }
      split; [lia|]. split; lia.
    + split; [lia|]. split; lia.
  - pose proof (digits_exponent_bound m e k ltac:(lia) He Hk Hle) as Hd.
    rewrite fexp_unfold.
    destruct (Z.max (Zdigits2 m + e - 24) (-149) - e) as [|n|n] eqn:En; cbn [shr].
    + cbn [shr_m loc_of_shr_record round_nearest_even]. split; [lia|]. split; lia.
    + assert (He' : e + Zpos n <= 0) by lia.
      assert (HK : m <= k * 2 ^ (- (e + Zpos n)) * 2 ^ Zpos n).
      { rewrite <- Z.mul_assoc, <- Z.pow_add_r by lia.
        replace (- (e + Zpos n) + Zpos n) with (- e) by lia. exact Hle. }
      pose proof (round_after_shift m _ n Hm HK) as R. cbv zeta in R.
      pose proof (iter_shr_1_bounds n (Build_shr_record m false false) Hm) as B.
      pose proof (round_nearest_even_bounds
                    (shr_m (iter_pos shr_1 n (Build_shr_record m false false)))
                    (loc_of_shr_record (iter_pos shr_1 n (Build_shr_record m false false)))) as R'.
      split; [lia|]. split; lia.
    + cbn [shr_m loc_of_shr_record round_nearest_even]. split; [lia|]. split; lia.
Qed.

(** Rounding to binary32 does not pass an integer below [2^24] that the
    exact value does not pass. *)
Lemma binary_round_aux_le_int (m e k : Z) :
  0 <= m -> e <= 0 -> 0 <= k < 2 ^ 24 -> m <= k * 2 ^ (- e) ->
  F32.nonneg (binary_round_aux F32.prec F32.emax false m e loc_Exact) = true /\
  F32.le_int (binary_round_aux F32.prec F32.emax false m e loc_Exact) k = true.
Proof.
  intros Hm He Hk Hle. unfold binary_round_aux.
  pose proof (shr_fexp_le_int m e k Hm He Hk Hle) as S1.
  destruct (shr_fexp F32.prec F32.emax m e loc_Exact) as [mrs1 e1].
  set (m1 := round_nearest_even (shr_m mrs1) (loc_of_shr_record mrs1)) in *.
  destruct S1 as (Hm1 & He1 & Hle1).
  pose proof (shr_fexp_le_int m1 e1 k ltac:(lia) ltac:(lia) Hk Hle1) as S2.
  destruct (shr_fexp F32.prec F32.emax m1 e1 loc_Exact) as [mrs2 e2].
  destruct S2 as (Hm2 & He2 & Hle2).
  pose proof (round_nearest_even_bounds (shr_m mrs2) (loc_of_shr_record mrs2)) as R2.
  destruct (shr_m mrs2) as [|p|p] eqn:Em2.
  - split; [reflexivity|]. cbn [F32.le_int]. apply Z.leb_le. lia.
  - replace (e2 <=? F32.emax - F32.prec) with true
      by (symmetry; apply Z.leb_le; unfold F32.emax, F32.prec; lia).
    split; [reflexivity|]. cbn [F32.le_int].
    destruct (Z.leb_spec 0 e2) as [H0|H0]; apply Z.leb_le.
    + assert (e2 = 0) by lia. subst e2. change (2 ^ (- 0)) with 1 in Hle2.
      change (2 ^ 0) with 1. lia.
    + lia.
  - (* a negative mantissa cannot come out of a right shift *)
    exfalso. lia.
Qed.

(** A fraction between 0 and 1 times [100.0f] lies between 0 and
    100. *)
Lemma mul_100_range (x : F32.float32) :
  F32.nonneg x = true -> F32.le_int x 1 = true ->
  F32.nonneg (F32.mul x (F32.lit 1000 1)) = true /\
  F32.le_int (F32.mul x (F32.lit 1000 1)) 100 = true.
Proof.
  rewrite spec_mul.
  change (F32.lit 1000 1) with (F32.Num (S754_finite false 13107200 (-17))).
  destruct x as [[s|s| |s m e]|]; cbn [F32.spec]; try discriminate.
  - intros _ _. split; reflexivity.
  - destruct s; [discriminate|]. intros _. cbn [F32.le_int].
    unfold SFmul. cbn [xorb].
    assert (Hp : forall z, 0 <= z -> 0 < 2 ^ z) by (intros; apply Z.pow_pos_nonneg; lia).
    destruct (Z.leb_spec 0 e) as [He|He]; intros Hle; apply Z.leb_le in Hle.
    + assert (e = 0).
      { destruct (Z.eq_dec e 0) as [|Hne]; [assumption|].
        assert (2 ^ 1 <= 2 ^ e) by (apply Z.pow_le_mono_r; lia).
        change (2 ^ 1) with 2 in *. nia. }
      subst e. change (2 ^ 0) with 1 in Hle.
      assert (m = 1%positive) by lia. subst m.
      split; reflexivity.
    + apply binary_round_aux_le_int; try lia.
      replace (- (e + -17)) with (- e + 17) by lia.
      rewrite Z.pow_add_r, Pos2Z.inj_mul by lia.
      change (2 ^ 17) with 131072. specialize (Hp (- e)). nia.
Qed.

End RoundingBounds.


(** ** Whole numbers under [%.Nf] *)

Section WholeNumbers.

Import Printf Wire.

Lemma scaled_round_integral (s : bool) (m : positive) (e : Z) (d : nat) :
  F32.is_integral (S754_finite s m e) = true ->
  scaled_round m e d = Z.abs (F32.to_Z (S754_finite s m e)) * 10 ^ Z.of_nat d.
Proof.
  unfold F32.is_integral, F32.to_Z, scaled_round.
  destruct (Z.leb_spec 0 e) as [He|He]; cbn [orb].
  - intros _. destruct s; rewrite ?Z.abs_opp, Z.abs_eq; nia || lia.
  - intros Hmod. apply Z.eqb_eq in Hmod.
    assert (Hden : 0 < 2 ^ (- e)) by (apply Z.pow_pos_nonneg; lia).
    pose proof (Z.div_mod (Zpos m) (2 ^ (- e)) ltac:(lia)) as Hdm.
    rewrite Hmod, Z.add_0_r in Hdm.
    set (q := Zpos m / 2 ^ (- e)) in *.
    assert (Hq : 0 <= q) by (apply Z.div_pos; lia).
    replace (Zpos m * 10 ^ Z.of_nat d) with (q * 10 ^ Z.of_nat d * 2 ^ (- e))
      by (rewrite Hdm; ring).
    rewrite Z.div_mul, Z.mod_mul by lia.
    replace (2 * 0 ?= 2 ^ (- e)) with Lt by (symmetry; apply Z.compare_lt_iff; lia).
    destruct s; rewrite ?Z.abs_opp, Z.abs_eq; lia.
Qed.

Lemma frac_digits_multiple (k : nat) (n : Z) :
  (10 ^ Z.of_nat k | n) -> frac_digits k n = frac_digits k 0.
Proof.
  induction k as [|k IH]; intros [c Hc]; cbn [frac_digits]; [reflexivity|].
  rewrite Nat2Z.inj_succ, Z.pow_succ_r in Hc by lia.
  assert (Hp : 0 < 10 ^ Z.of_nat k) by (apply Z.pow_pos_nonneg; lia).
  rewrite IH by (exists (c * 10); lia).
  replace n with (c * 10 * 10 ^ Z.of_nat k) by lia.
  rewrite Z.div_mul, Z.mod_mul, Z.div_0_l by lia.
  reflexivity.
Qed.

(** A whole number is written as its integer digits followed by
    zeros. *)
Lemma fmt_f_integral (d : nat) (x : F32.float32) :
  F32.is_integral x = true ->
  fmt_f (S d) x =
    sign_text (F32.signbit x) ++ dec (Z.abs (F32.to_Z x)) ++ String "." (frac_digits (S d) 0).
Proof.
  assert (Hp : 0 < 10 ^ Z.of_nat (S d)) by (apply Z.pow_pos_nonneg; lia).
  destruct x as [[s|s| |s m e]|]; cbn [F32.spec]; try discriminate; intros Hi;
    unfold fmt_f, fixed_text, F32.signbit.
  - rewrite Z.div_0_l by lia. reflexivity.
  - rewrite (scaled_round_integral s m e (S d) Hi), Z.div_mul by lia.
    rewrite (frac_digits_multiple (S d)) by (eexists; reflexivity).
    reflexivity.
Qed.

Lemma fraction_of_app (s t : string) :
  all_chars (fun c => negb (Ascii.eqb c ".")) s = true ->
  fraction_of (s ++ String "." t) = Some t.
Proof.
  induction s as [|c s IH]; cbn [append all_chars fraction_of].
  - intros _. reflexivity.
  - rewrite andb_true_iff, negb_true_iff. intros [Hc Hs].
    rewrite Hc. apply IH, Hs.
Qed.

Lemma digits_no_point (s : string) :
  all_chars is_digit s = true ->
  all_chars (fun c => negb (Ascii.eqb c ".")) s = true.
Proof.
  apply all_chars_weaken. intros c Hc.
  destruct (Ascii.eqb_spec c ".") as [->|_]; [discriminate Hc | reflexivity].
Qed.

Lemma fraction_of_integral (d : nat) (x : F32.float32) :
  F32.is_integral x = true ->
  fraction_of (fmt_f (S d) x) = Some (frac_digits (S d) 0).
Proof.
  intros Hi. rewrite (fmt_f_integral d x Hi), <- append_assoc.
  apply fraction_of_app.
  rewrite all_chars_app, (digits_no_point _ (dec_all_digits _)).
  destruct (F32.signbit x); reflexivity.
Qed.

End WholeNumbers.

(** ** The loop body and the loop *)

Section ProgramFacts.

Import Printf Wire Hub.

Lemma encode_line_of (r : Telemetry) : encode r = Some (line_of r).
Proof.
  unfold encode, sprintf.
  let cs := eval vm_compute in (parse_format PText FORMAT) in
  change (parse_format PText FORMAT) with cs.
  unfold line_of, render, fields_of, all_fields, printf_args, text_of.
  cbn [map join_fields numeric_value digits_of key_of format option_map].
  unfold kDeviceId, CRLF.
  repeat first [rewrite append_assoc | progress cbn [append]].
  reflexivity.
Qed.

Lemma fields_of_plain (r : Telemetry) : plain_fields (fields_of r).
Proof.
  unfold plain_fields, fields_of, all_fields. cbn [map].
  repeat constructor; cbn [fst snd]; try reflexivity; apply fmt_f_plain.
Qed.

Lemma parse_line_of (r : Telemetry) : parse_line (line_of r) = Some (fields_of r).
Proof.
  apply parse_render; [discriminate | apply fields_of_plain].
Qed.

Lemma field_line_of (r : Telemetry) (f : field_id) :
  field (key_of f) (line_of r) = Some (text_of r f).
Proof.
  unfold field. rewrite parse_line_of. destruct f; reflexivity.
Qed.

Lemma loop_body_total (v : Vars) (c : Collab) :
  loop_body v c =
    Some (fst (read_sensors v c),
          (sensor_calls ++ [Transmit (line_of (snd (read_sensors v c))); Wait (F32.lit 10 1)])%list).
Proof.
  unfold loop_body. destruct (read_sensors v c) as [v' r].
  rewrite encode_line_of. reflexivity.
Qed.

Lemma while_true_unroll (env : nat -> Collab) (n : nat) :
  forall i,
    while_loop (fun _ => true) loop_body n env i (vars_at env i) =
      {| run_status := InLoop;
         run_vars := vars_at env (i + n);
         run_trace := flat_map (cycle_trace env) (seq i n) |}.
Proof.
  induction n as [|n IH]; intros i; cbn [while_loop seq flat_map].
  - rewrite Nat.add_0_r. reflexivity.
  - rewrite loop_body_total.
    change (fst (read_sensors (vars_at env i) (env i))) with (vars_at env (S i)).
    rewrite IH. cbn [run_status run_vars run_trace].
    rewrite Nat.add_succ_r. reflexivity.
Qed.

Lemma main_unroll (n : nat) (env : nat -> Collab) :
  main n env =
    {| run_status := InLoop;
       run_vars := vars_at env n;
       run_trace := TimerStart :: GpsSetting :: flat_map (cycle_trace env) (seq 0 n) |}.
Proof.
  unfold main. change init_vars with (vars_at env 0).
  rewrite while_true_unroll. reflexivity.
Qed.

Lemma lines_of_app (t1 t2 : list event) :
  lines_of (t1 ++ t2) = (lines_of t1 ++ lines_of t2)%list.
Proof.
  induction t1 as [|e t1 IH]; [reflexivity|].
  destruct e; cbn [app lines_of]; rewrite IH; reflexivity.
Qed.

Lemma lines_of_cycles (env : nat -> Collab) (l : list nat) :
  lines_of (flat_map (cycle_trace env) l) = map (fun i => line_of (record_at env i)) l.
Proof.
  induction l as [|i l IH]; [reflexivity|].
  cbn [flat_map map]. rewrite lines_of_app, IH. reflexivity.
Qed.

Lemma lines_of_main (n : nat) (env : nat -> Collab) :
  lines_of (run_trace (main n env)) = map (fun i => line_of (record_at env i)) (seq 0 n).
Proof.
  rewrite main_unroll. cbn [run_trace lines_of]. apply lines_of_cycles.
Qed.

Lemma line_at_main (n : nat) (env : nat -> Collab) (i : nat) :
  (i < n)%nat -> line_at n env i = Some (line_of (record_at env i)).
Proof.
  intros Hi. unfold line_at. rewrite lines_of_main.
  rewrite nth_error_map, nth_error_nth' with (d := O) by (rewrite length_seq; lia).
  rewrite seq_nth by lia. reflexivity.
Qed.

(** The record of an iteration shows the working variables as the
    iteration leaves them. *)
Lemma record_at_vars (env : nat -> Collab) (i : nat) :
  soil_temp (record_at env i) = board_temp_c (vars_at env (S i)) /\
  longitude (record_at env i) = gps_longitude_deg (vars_at env (S i)) /\
  latitude (record_at env i) = gps_latitude_deg (vars_at env (S i)).
Proof. repeat split. Qed.

(** A silent source leaves the text of its field to the variable the
    field is read from. *)
Lemma silent_text (v : Vars) (c : Collab) (f : field_id) :
  reports c f = false ->
  text_of (snd (read_sensors v c)) f =
    match f with
    | SoilTemp => fmt_f 1 (promote (board_temp_c v))
    | Longitude => fmt_f 6 (promote (gps_longitude_deg v))
    | Latitude => fmt_f 6 (promote (gps_latitude_deg v))
    | _ => EmptyString
    end.
Proof.
  destruct f; cbn [reports]; try discriminate.
  - destruct (temp_sense c) eqn:E; [discriminate|]. intros _.
    unfold text_of, read_sensors.
    cbn [snd numeric_value soil_temp board_temp_c digits_of].
    rewrite E. reflexivity.
  - destruct (w_longitude (gga_sensing c)) eqn:E; [discriminate|]. intros _.
    unfold text_of, read_sensors.
    cbn [snd numeric_value longitude gps_longitude_deg digits_of].
    rewrite E. reflexivity.
  - destruct (w_latitude (gga_sensing c)) eqn:E; [discriminate|]. intros _.
    unfold text_of, read_sensors.
    cbn [snd numeric_value latitude gps_latitude_deg digits_of].
    rewrite E. reflexivity.
Qed.

Lemma silent_text_previous (env : nat -> Collab) (i : nat) (f : field_id) :
  reports (env (S i)) f = false ->
  text_of (record_at env (S i)) f = text_of (record_at env i) f.
Proof.
  intros H. unfold record_at at 1. rewrite (silent_text _ _ _ H).
  destruct (record_at_vars env i) as (E1 & E2 & E3).
  destruct f; cbn [reports] in H; try discriminate;
    unfold text_of; cbn [numeric_value digits_of]; congruence.
Qed.

Lemma silent_text_startup (env : nat -> Collab) (f : field_id) :
  reports (env O) f = false ->
  text_of (record_at env O) f = startup_text f.
Proof.
  intros H. unfold record_at. rewrite (silent_text _ _ _ H).
  destruct f; cbn [reports] in H; try discriminate; reflexivity.
Qed.

(** One iteration does not let the unpublished readings through. *)
Lemma read_sensors_seen (v1 v2 : Vars) (c1 c2 : Collab) :
  same_seen v1 c1 v2 c2 ->
  snd (read_sensors v1 c1) = snd (read_sensors v2 c2) /\
  same_carried (fst (read_sensors v1 c1)) (fst (read_sensors v2 c2)).
Proof.
  intros (Hf & Hh & Hs & Hb & Hla & Hlo).
  unfold read_sensors, same_carried.
  cbn [fst snd board_temp_c gps_latitude_deg gps_longitude_deg
       ambient_temp_c relative_humidity_percent].
  rewrite Hf, Hh, Hs, Hb, Hla, Hlo. repeat split.
Qed.

Lemma same_published_seen (v1 v2 : Vars) (c1 c2 : Collab) :
  same_carried v1 v2 -> same_published c1 c2 -> same_seen v1 c1 v2 c2.
Proof.
  intros (Hb & Hla & Hlo) (Hf & Hh & Hs & Ht & Hwla & Hwlo).
  unfold same_seen. rewrite Hb, Hla, Hlo, Ht, Hwla, Hwlo. repeat split; assumption.
Qed.

Lemma read_sensors_published (v1 v2 : Vars) (c1 c2 : Collab) :
  same_carried v1 v2 -> same_published c1 c2 ->
  snd (read_sensors v1 c1) = snd (read_sensors v2 c2) /\
  same_carried (fst (read_sensors v1 c1)) (fst (read_sensors v2 c2)).
Proof.
  intros Hv Hc. apply read_sensors_seen, same_published_seen; assumption.
Qed.

Lemma vars_at_published (env1 env2 : nat -> Collab) :
  (forall i, same_published (env1 i) (env2 i)) ->
  forall i, same_carried (vars_at env1 i) (vars_at env2 i).
Proof.
  intros Henv. induction i as [|i IH]; [repeat split|].
  cbn [vars_at]. apply read_sensors_published; [exact IH | apply Henv].
Qed.

Lemma record_at_published (env1 env2 : nat -> Collab) :
  (forall i, same_published (env1 i) (env2 i)) ->
  forall i, record_at env1 i = record_at env2 i.
Proof.
  intros Henv i. unfold record_at.
  apply read_sensors_published; [apply vars_at_published, Henv | apply Henv].
Qed.

(** Two runs whose collaborators agree, iteration by iteration, on the
    published readings do the same things and send the same lines. *)
Lemma same_published_same_trace (n : nat) (env1 env2 : nat -> Collab) :
  (forall i, same_published (env1 i) (env2 i)) ->
  run_trace (main n env1) = run_trace (main n env2).
Proof.
  intros Henv. rewrite !main_unroll. cbn [run_trace]. do 2 f_equal.
  apply flat_map_ext. intros i. unfold cycle_trace.
  rewrite (record_at_published env1 env2 Henv i). reflexivity.
Qed.


(** Checked reading by reading: what [%.2f] writes for the converted
    temperature is the exact quotient rounded to hundredths. *)
Lemma fahrenheit_table_exact :
  forallb (fun f =>
             String.eqb
               (fmt_f 2 (F32.div (F32.sub (F32.of_int f) (F32.lit 320 1)) (F32.lit 18 1)))
               (fixed_text (f <? 32) (Z.abs (celsius_hundredths f)) 2))
          fahrenheit_table = true.
Proof. vm_compute. reflexivity. Qed.

Lemma fahrenheit_table_complete (f : Z) :
  -100 <= f < 900 -> In f fahrenheit_table.
Proof.
  intros Hf. unfold fahrenheit_table. apply in_map_iff.
  exists (Z.to_nat (f + 100)). split; [lia|].
  apply in_seq. lia.
Qed.

End ProgramFacts.

(** ** The literals of the program *)

Section Literals.

Import Hub.

(** [32.0f], [1.8f], [100.0f], [5.2f], [1.0f] and [0.0f] as binary32
    values: mantissa and exponent of the nearest representable
    number. *)
Example lit_32 : F32.lit 320 1 = F32.Num (S754_finite false 8388608 (-18)).
Proof. reflexivity. Qed.

Example lit_1_8 : F32.lit 18 1 = F32.Num (S754_finite false 15099494 (-23)).
Proof. reflexivity. Qed.

Example lit_100 : F32.lit 1000 1 = F32.Num (S754_finite false 13107200 (-17)).
Proof. reflexivity. Qed.

Example lit_5_2 : kDummyWindSpeedMs = F32.Num (S754_finite false 10905190 (-21)).
Proof. reflexivity. Qed.

Example lit_1 : F32.lit 10 1 = F32.Num (S754_finite false 8388608 (-23)).
Proof. reflexivity. Qed.

Example lit_0 : F32.lit 0 1 = F32.Num (S754_zero false).
Proof. reflexivity. Qed.

(** The sign of a NaN is kept by the multiplication and shown on the
    line. *)
Example negative_nan_line :
  lines_of (run_trace (main 1 (fun _ => negative_nan_readings))) =
    [c_literal "device_id=MIZU_0001,ambient_temp=25.00,humidity=60.00,soil_moisture=-nan,soil_temp=-nan,wind_speed=5.2,longitude=0.000000,latitude=0.000000\r\n"].
Proof. vm_compute. reflexivity. Qed.

Example startup_texts :
  map startup_text all_fields =
    ["MIZU_0001"; "0.00"; "0.00"; "0.0"; "0.0"; "0.0"; "0.000000"; "0.000000"].
Proof. reflexivity. Qed.

End Literals.

(** ** The claims *)

Section Claims.

Import Printf Wire Hub.

(** C1, at an input where it fails.  The board-temperature driver
    stores an infinity: the line carries [soil_temp=inf], which has no
    fraction digit at all, where the claim promises one. *)
Lemma encode_infinite_soil_temp :
  encode (snd (read_sensors init_vars infinite_board_temp)) =
    Some (c_literal "device_id=MIZU_0001,ambient_temp=25.00,humidity=60.00,soil_moisture=45.8,soil_temp=inf,wind_speed=5.2,longitude=0.000000,latitude=0.000000\r\n") /\
  field "soil_temp"
    (c_literal "device_id=MIZU_0001,ambient_temp=25.00,humidity=60.00,soil_moisture=45.8,soil_temp=inf,wind_speed=5.2,longitude=0.000000,latitude=0.000000\r\n")
    = Some "inf" /\
  fixed_point (digits_of SoilTemp) "inf" = false.
Proof. repeat split; vm_compute; reflexivity. Qed.

(** C1, amended.  For every record the [printf] call succeeds and
    sends one line: a body without CR or LF followed by CR LF, all of
    it 7-bit ASCII, which reads back as the eight fields [device_id],
    [ambient_temp], [humidity], [soil_moisture], [soil_temp],
    [wind_speed], [longitude], [latitude] in this order, each
    [key=value].  Every numeric field whose value is finite is written
    with exactly the fraction digits of its format: 2, 2, 1, 1, 1, 6,
    6. *)
Theorem encode_wire_line (r : Telemetry) :
  exists body,
    encode r = Some (body ++ CRLF) /\
    no_eol body = true /\
    all_chars is_ascii7 (body ++ CRLF) = true /\
    parse_line (body ++ CRLF) =
      Some [ ("device_id", kDeviceId);
             ("ambient_temp", fmt_f 2 (promote (ambient_temp r)));
             ("humidity", fmt_f 2 (promote (humidity r)));
             ("soil_moisture", fmt_f 1 (promote (soil_moisture r)));
             ("soil_temp", fmt_f 1 (promote (soil_temp r)));
             ("wind_speed", fmt_f 1 (promote (wind_speed r)));
             ("longitude", fmt_f 6 (promote (longitude r)));
             ("latitude", fmt_f 6 (promote (latitude r))) ] /\
    (forall f x,
        numeric_value r f = Some x ->
        F32.is_finite x = true ->
        exists text,
          field (key_of f) (body ++ CRLF) = Some text /\
          fixed_point (digits_of f) text = true).
Proof.
  exists (join_fields (fields_of r)).
  pose proof (fields_of_plain r) as Hplain.
  split; [apply encode_line_of|].
  split; [apply join_fields_no_eol, Hplain|].
  split; [rewrite all_chars_app, (join_fields_ascii7 _ Hplain); reflexivity|].
  split; [exact (parse_line_of r)|].
  intros f x Hx Hfin. exists (fmt_f (digits_of f) (promote x)). split.
  - change (join_fields (fields_of r) ++ CRLF) with (line_of r).
    rewrite field_line_of. unfold text_of. rewrite Hx. reflexivity.
  - destruct f; try discriminate Hx; apply fmt_f_fixed_point, Hfin.
Qed.

Lemma encode_wire_line_witness :
  exists body,
    encode (snd (read_sensors init_vars scenario)) = Some (body ++ CRLF) /\
    exists text,
      field "latitude" (body ++ CRLF) = Some text /\
      fixed_point 6 text = true.
Proof.
  destruct (encode_wire_line (snd (read_sensors init_vars scenario)))
    as (body & Henc & _ & _ & _ & Hnum).
  exists body. split; [exact Henc|].
  exact (Hnum Latitude (F32.lit 377749 4) eq_refl eq_refl).
Defined.

(** C2, as stated, fails: on the inputs of the end-to-end scenario the
    line sent is not the documented example. *)
Lemma scenario_line_is_not_documented_example :
  lines_of (run_trace (main 1 (fun _ => scenario))) <> [documented_example].
Proof. vm_compute. discriminate. Qed.

(** C2, amended.  With power 3.7 V, board temperature 22.1, ambient
    read (77 F, 60 %), soil fraction 0.458, a valid fix at latitude
    37.7749 and longitude -122.4194 (each the nearest binary32 value)
    and the wind constant 5.2, the first iteration sends exactly this
    line: a whole-number humidity, 77 F as 25.00, one fraction digit
    for soil moisture, soil temperature and wind speed, and the
    binary32 neighbours of the coordinates. *)
Theorem scenario_line :
  lines_of (run_trace (main 1 (fun _ => scenario))) =
    [c_literal "device_id=MIZU_0001,ambient_temp=25.00,humidity=60.00,soil_moisture=45.8,soil_temp=22.1,wind_speed=5.2,longitude=-122.419403,latitude=37.774899\r\n"].
Proof. vm_compute. reflexivity. Qed.

(** C3.  In every iteration after the first, a field whose source
    does not hand over a value has on the line the text it had on the
    line before; on the first line it has its startup text, the
    initialiser [0.0f] under the field's format.  Only the sources
    that report through a pointer (board temperature for [soil_temp],
    GPS for [longitude] and [latitude]) can stay silent. *)
Theorem carry_forward (n : nat) (env : nat -> Collab) (f : field_id) :
  (forall i, (S i < n)%nat -> reports (env (S i)) f = false ->
     exists previous current text,
       line_at n env i = Some previous /\
       line_at n env (S i) = Some current /\
       field (key_of f) previous = Some text /\
       field (key_of f) current = Some text) /\
  ((0 < n)%nat -> reports (env O) f = false ->
     exists first,
       line_at n env O = Some first /\
       field (key_of f) first = Some (startup_text f)).
Proof.
  split.
  - intros i Hi Hsilent.
    exists (line_of (record_at env i)), (line_of (record_at env (S i))),
      (text_of (record_at env i) f).
    rewrite !line_at_main by lia. rewrite !field_line_of.
    rewrite (silent_text_previous env i f Hsilent). repeat split.
  - intros Hn Hsilent. exists (line_of (record_at env O)).
    rewrite line_at_main by lia. rewrite field_line_of.
    rewrite (silent_text_startup env f Hsilent). split; reflexivity.
Qed.

Lemma carry_forward_witness :
  (exists previous current text,
      line_at 2 (fun i => match i with O => scenario | _ => all_silent end) 0 = Some previous /\
      line_at 2 (fun i => match i with O => scenario | _ => all_silent end) 1 = Some current /\
      field "longitude" previous = Some text /\
      field "longitude" current = Some text) /\
  (exists first,
      line_at 1 (fun _ => all_silent) O = Some first /\
      field "soil_temp" first = Some "0.0").
Proof.
  split.
  - exact (proj1 (carry_forward 2 (fun i => match i with O => scenario | _ => all_silent end)
                    Longitude) O (Nat.lt_succ_diag_r 1) eq_refl).
  - exact (proj2 (carry_forward 1 (fun _ => all_silent) SoilTemp)
                    (Nat.lt_succ_diag_r 0) eq_refl).
Defined.

(** C4.  Whatever the working variables, the ambient temperature of
    the record is the Fahrenheit reading converted to [float], minus
    [32.0f], divided by [1.8f], in binary32 arithmetic; the humidity
    is the integer reading converted to [float].  A reading of 77 F
    gives exactly 25 and is written [25.00].  For readings from -100
    to 899 F the text written is the exact quotient (f - 32) / 1.8
    rounded to hundredths.  A humidity reading below
    2^24 in magnitude (so every percentage) is carried without change:
    the value is that integer and is written as its digits followed
    by [.00]. *)
Theorem ambient_conversion (v : Vars) (c : Collab) :
  ambient_temp (snd (read_sensors v c)) =
    F32.div (F32.sub (F32.of_int (getFahrenheit c)) (F32.lit 320 1)) (F32.lit 18 1) /\
  humidity (snd (read_sensors v c)) = F32.of_int (getHumidity c) /\
  (getFahrenheit c = 77 ->
     F32.is_integral (ambient_temp (snd (read_sensors v c))) = true /\
     F32.to_Z (ambient_temp (snd (read_sensors v c))) = 25 /\
     text_of (snd (read_sensors v c)) AmbientTemp = "25.00") /\
  (-100 <= getFahrenheit c < 900 ->
     text_of (snd (read_sensors v c)) AmbientTemp =
       fixed_text (getFahrenheit c <? 32) (Z.abs (celsius_hundredths (getFahrenheit c))) 2) /\
  (- 2 ^ 24 < getHumidity c < 2 ^ 24 ->
     F32.is_integral (humidity (snd (read_sensors v c))) = true /\
     F32.to_Z (humidity (snd (read_sensors v c))) = getHumidity c /\
     text_of (snd (read_sensors v c)) Humidity =
       sign_text (getHumidity c <? 0) ++ dec (Z.abs (getHumidity c)) ++ ".00").
Proof.
  unfold read_sensors, text_of.
  cbn [snd ambient_temp humidity ambient_temp_c relative_humidity_percent
       numeric_value digits_of].
  split; [reflexivity|]. split; [reflexivity|]. split; [|split].
  - intros ->. repeat split.
  - intros Hf. apply String.eqb_eq.
    pose proof fahrenheit_table_exact as Htab.
    rewrite forallb_forall in Htab.
    apply (Htab _ (fahrenheit_table_complete _ Hf)).
  - intros Hh. destruct (of_int_exact _ Hh) as [Hint Hval].
    split; [exact Hint|]. split; [exact Hval|].
    unfold promote. rewrite (fmt_f_integral 1 _ Hint), Hval, (of_int_signbit _ Hh).
    reflexivity.
Qed.

Lemma ambient_conversion_witness :
  text_of (snd (read_sensors init_vars scenario)) AmbientTemp = "25.00" /\
  text_of (snd (read_sensors init_vars scenario)) AmbientTemp = fixed_text false 2500 2 /\
  text_of (snd (read_sensors init_vars scenario)) Humidity = "60.00".
Proof.
  pose proof (ambient_conversion init_vars scenario) as (_ & _ & H77 & Htab & Hhum).
  split; [exact (proj2 (proj2 (H77 eq_refl)))|].
  split.
  - apply Htab. simpl. lia.
  - apply Hhum. simpl. lia.
Defined.

(** C5.  In every iteration of every run the soil moisture of the
    record is the fraction returned by the analog input multiplied by
    [100.0f] in binary32 arithmetic, and the [soil_moisture] field of
    the line sent in that iteration is its [%.1f] text.  A fraction
    between 0 and 1 gives a value between 0 and 100, and for the
    fraction 0.458 the field on the line is [45.8]. *)
Theorem soil_moisture_scaling (n : nat) (env : nat -> Collab) (i : nat) :
  (i < n)%nat ->
  soil_moisture (record_at env i) = F32.mul (soil_read (env i)) (F32.lit 1000 1) /\
  (F32.nonneg (soil_read (env i)) = true -> F32.le_int (soil_read (env i)) 1 = true ->
     F32.nonneg (soil_moisture (record_at env i)) = true /\
     F32.le_int (soil_moisture (record_at env i)) 100 = true) /\
  exists line,
    line_at n env i = Some line /\
    field "soil_moisture" line =
      Some (fmt_f 1 (promote (F32.mul (soil_read (env i)) (F32.lit 1000 1)))) /\
    (soil_read (env i) = F32.lit 458 3 -> field "soil_moisture" line = Some "45.8").
Proof.
  intros Hi.
  assert (E : soil_moisture (record_at env i) =
              F32.mul (soil_read (env i)) (F32.lit 1000 1)) by reflexivity.
  split; [exact E|]. split; [rewrite E; apply mul_100_range|].
  exists (line_of (record_at env i)). split; [apply line_at_main, Hi|].
  rewrite (field_line_of _ SoilMoisture). unfold text_of.
  cbn [numeric_value digits_of]. rewrite E.
  split; [reflexivity|]. intros ->. reflexivity.
Qed.

Lemma soil_moisture_scaling_witness :
  (F32.nonneg (soil_moisture (record_at (fun _ => scenario) 0)) = true /\
   F32.le_int (soil_moisture (record_at (fun _ => scenario) 0)) 100 = true) /\
  exists line,
    line_at 1 (fun _ => scenario) 0 = Some line /\
    field "soil_moisture" line = Some "45.8".
Proof.
  destruct (soil_moisture_scaling 1 (fun _ => scenario) 0 (Nat.lt_succ_diag_r 0))
    as (_ & Hrange & line & Hline & _ & Htext).
  split; [exact (Hrange eq_refl eq_refl)|].
  exists line. split; [exact Hline | exact (Htext eq_refl)].
Defined.

(** C6.  In an iteration where the board-temperature driver stores a
    value, that value is the soil temperature of the record, bit for
    bit, and the [soil_temp] field of the line sent in that iteration
    is its [%.1f] text. *)
Theorem soil_temp_is_board_temperature
        (n : nat) (env : nat -> Collab) (i : nat) (x : F32.float32) :
  (i < n)%nat -> temp_sense (env i) = Some x ->
  soil_temp (record_at env i) = x /\
  exists line,
    line_at n env i = Some line /\
    field "soil_temp" line = Some (fmt_f 1 (promote x)).
Proof.
  intros Hi Hx.
  assert (E : soil_temp (record_at env i) = x).
  { unfold record_at, read_sensors. cbn [snd soil_temp board_temp_c].
    rewrite Hx. reflexivity. }
  split; [exact E|].
  exists (line_of (record_at env i)). split; [apply line_at_main, Hi|].
  rewrite (field_line_of _ SoilTemp). unfold text_of.
  cbn [numeric_value digits_of]. rewrite E. reflexivity.
Qed.

Lemma soil_temp_is_board_temperature_witness :
  soil_temp (record_at (fun _ => scenario) 0) = F32.lit 221 1 /\
  exists line,
    line_at 1 (fun _ => scenario) 0 = Some line /\
    field "soil_temp" line = Some "22.1".
Proof.
  exact (soil_temp_is_board_temperature 1 (fun _ => scenario) 0 (F32.lit 221 1)
           (Nat.lt_succ_diag_r 0) eq_refl).
Defined.

(** C7.  Every line the program sends, whatever the collaborators
    answer in any iteration, has the [wind_speed] field [5.2], the
    text of the constant [kDummyWindSpeedMs]; the record holds that
    constant in every iteration. *)
Theorem wind_speed_is_constant (n : nat) (env : nat -> Collab) :
  Forall (fun line => field "wind_speed" line = Some "5.2")
         (lines_of (run_trace (main n env))) /\
  (forall i, wind_speed (record_at env i) = kDummyWindSpeedMs) /\
  fmt_f 1 (promote kDummyWindSpeedMs) = "5.2".
Proof.
  split; [|split; reflexivity].
  rewrite lines_of_main. apply Forall_map, Forall_forall. intros i _.
  rewrite (field_line_of _ WindSpeed). reflexivity.
Qed.

(** C8.  Two iterations that see the same ambient reading, humidity,
    soil fraction, board temperature and GPS latitude and longitude do
    the same things and send the same line, whatever the voltage read
    and the other GPS outputs (time, hemisphere letters, quality,
    satellite count, horizontal accuracy, altitude and its unit, fix
    check) are in either of them, and whether or not they are stored
    at all.  The voltage read is the first call of both, and the
    variables the two leave agree on what a later line can show. *)
Theorem published_noninterference (v1 v2 : Vars) (c1 c2 : Collab) :
  same_seen v1 c1 v2 c2 ->
  exists v1' v2' line,
    loop_body v1 c1 =
      Some (v1', (VolRead :: tl sensor_calls ++ [Transmit line; Wait (F32.lit 10 1)])%list) /\
    loop_body v2 c2 =
      Some (v2', (VolRead :: tl sensor_calls ++ [Transmit line; Wait (F32.lit 10 1)])%list) /\
    same_carried v1' v2'.
Proof.
  intros Hseen.
  destruct (read_sensors_seen v1 v2 c1 c2 Hseen) as [Hrec Hcar].
  exists (fst (read_sensors v1 c1)), (fst (read_sensors v2 c2)),
    (line_of (snd (read_sensors v1 c1))).
  rewrite !loop_body_total, <- Hrec.
  split; [reflexivity|]. split; [reflexivity|]. exact Hcar.
Qed.

Lemma published_noninterference_witness :
  exists v1' v2' line,
    loop_body init_vars scenario =
      Some (v1', (VolRead :: tl sensor_calls ++ [Transmit line; Wait (F32.lit 10 1)])%list) /\
    loop_body vars_other scenario_other =
      Some (v2', (VolRead :: tl sensor_calls ++ [Transmit line; Wait (F32.lit 10 1)])%list) /\
    same_carried v1' v2'.
Proof.
  apply (published_noninterference init_vars vars_other scenario scenario_other).
  repeat split.
Defined.


(** C10.  When the humidity readings are [int] values, the
    [humidity] field of every line the program sends has the fraction
    digits [00]. *)
Theorem humidity_fraction_is_zero (n : nat) (env : nat -> Collab) :
  (forall i, is_int (getHumidity (env i))) ->
  Forall (fun line =>
            exists text,
              field "humidity" line = Some text /\
              fraction_of text = Some "00")
         (lines_of (run_trace (main n env))).
Proof.
  intros Hint. rewrite lines_of_main. apply Forall_map, Forall_forall.
  intros i _. exists (text_of (record_at env i) Humidity).
  split; [apply (field_line_of _ Humidity)|].
  unfold text_of. cbn [numeric_value digits_of]. unfold promote.
  apply (fraction_of_integral 1).
  apply of_int_integral, Hint.
Qed.

Lemma humidity_fraction_is_zero_witness :
  Forall (fun line =>
            exists text,
              field "humidity" line = Some text /\
              fraction_of text = Some "00")
         (lines_of (run_trace (main 2 (fun _ => scenario)))).
Proof.
  apply (humidity_fraction_is_zero 2 (fun _ => scenario)).
  intros i. unfold is_int. simpl. lia.
Defined.

End Claims.

(** * Further properties of the program *)

(** ** binary32 results stay in range *)

Section RangeFacts.

Lemma Zdigits2_nonneg (m : Z) : 0 <= Zdigits2 m.
Proof. destruct m; cbn [Zdigits2]; lia. Qed.

Lemma Zdigits2_lt (m : Z) : 0 <= m -> m < 2 ^ Zdigits2 m.
Proof.
  destruct m as [|p|p]; intros Hm; cbn [Zdigits2]; [reflexivity| |lia].
  apply digits2_pos_bounds.
Qed.

Lemma Zdigits2_succ (m : Z) : 0 <= m -> Zdigits2 (m + 1) <= Zdigits2 m + 1.
Proof.
  intros Hm. pose proof (Zdigits2_lt m Hm) as Hlt.
  pose proof (Zdigits2_nonneg m) as Hd.
  apply (Zdigits2_upper (m + 1) (Zdigits2 m + 1)); [lia|].
  rewrite Z.pow_add_r, Z.pow_1_r by lia. lia.
Qed.

Lemma Zdigits2_le (a b : Z) : 0 <= a <= b -> Zdigits2 a <= Zdigits2 b.
Proof.
  intros [Ha Hab]. pose proof (Zdigits2_lt b ltac:(lia)).
  apply (Zdigits2_upper a (Zdigits2 b)); [apply Zdigits2_nonneg | lia].
Qed.

Lemma Zdigits2_shift (m n : Z) :
  0 <= m -> 0 <= n -> Zdigits2 (m / 2 ^ n) <= Z.max 0 (Zdigits2 m - n).
Proof.
  intros Hm Hn. pose proof (Zdigits2_lt m Hm) as Hlt.
  pose proof (Zdigits2_nonneg m) as Hd.
  assert (Hp : 0 < 2 ^ n) by (apply Z.pow_pos_nonneg; lia).
  destruct (Z_le_gt_dec n (Zdigits2 m)) as [Hle|Hgt].
  - apply Z.le_trans with (Zdigits2 m - n); [|lia].
    apply (Zdigits2_upper (m / 2 ^ n) (Zdigits2 m - n)); [lia|].
    split; [apply Z.div_pos; lia|].
    apply Z.div_lt_upper_bound; [lia|].
    rewrite <- Z.pow_add_r by lia.
    replace (n + (Zdigits2 m - n)) with (Zdigits2 m) by lia. exact Hlt.
  - rewrite Z.div_small; [cbn [Zdigits2]; lia|].
    split; [lia|]. apply Z.lt_le_trans with (2 ^ Zdigits2 m); [exact Hlt|].
    apply Z.pow_le_mono_r; lia.
Qed.

(** [n] right shifts divide the mantissa by [2^n], whatever the
    flags. *)
Lemma iter_shr_1_m (n : positive) (mrs : shr_record) :
  0 <= shr_m mrs ->
  shr_m (iter_pos shr_1 n mrs) = shr_m mrs / 2 ^ Zpos n.
Proof.
  intros Hm.
  assert (H : shr_m (iter_pos shr_1 n mrs) = shr_m mrs / 2 ^ (0 + Zpos n)).
  { apply (iter_pos_invariant shr_1 (fun j x => shr_m x = shr_m mrs / 2 ^ j)); [|lia|].
    - intros j [m r s] Hj Hx. cbn [shr_m] in Hx.
      assert (Hp : 0 < 2 ^ j) by (apply Z.pow_pos_nonneg; lia).
      assert (Hm0 : 0 <= m) by (subst m; apply Z.div_pos; lia).
      rewrite (shr_1_fields m r s Hm0). cbn [shr_m].
      rewrite Hx, Z.div_div, Z.pow_add_r, Z.pow_1_r by lia. reflexivity.
    - change (2 ^ 0) with 1. rewrite Z.div_1_r. reflexivity. }
  exact H.
Qed.

(** One [shr_fexp] step: the exponent reached and the length of the
    mantissa left. *)
Lemma shr_fexp_shape (m e : Z) (l : location) :
  0 <= m ->
  let '(mrs, e') := shr_fexp F32.prec F32.emax m e l in
  0 <= shr_m mrs <= m /\
  e' = Z.max e (Z.max (Zdigits2 m + e - 24) (-149)) /\
  Zdigits2 (shr_m mrs) + e' <= Z.max (Zdigits2 m + e) e'.
Proof.
  intros Hm. unfold shr_fexp. rewrite fexp_unfold.
  pose proof (Zdigits2_nonneg m) as Hd.
  destruct (Z.max (Zdigits2 m + e - 24) (-149) - e) as [|p|p] eqn:En; cbn [shr].
  - rewrite shr_record_of_loc_m. split; [lia|]. split; lia.
  - pose proof (iter_shr_1_m p (shr_record_of_loc m l)) as Hq.
    rewrite shr_record_of_loc_m in Hq. specialize (Hq Hm). rewrite Hq.
    assert (Hp : 0 < 2 ^ Zpos p) by (apply Z.pow_pos_nonneg; lia).
    pose proof (Zdigits2_shift m (Zpos p) Hm ltac:(lia)) as Hs.
    split; [split; [apply Z.div_pos; lia | apply Z.div_le_upper_bound; nia]|].
    split; lia.
  - rewrite shr_record_of_loc_m. split; [lia|]. split; lia.
Qed.

(** Whatever is rounded, a finite result has at most 24 mantissa bits
    and an exponent of at most 104. *)
Lemma binary_round_aux_in_format (s : bool) (m e : Z) (l : location) :
  0 <= m -> F32.in_format (binary_round_aux F32.prec F32.emax s m e l) = true.
Proof.
  intros Hm. unfold binary_round_aux.
  pose proof (shr_fexp_shape m e l Hm) as S1.
  destruct (shr_fexp F32.prec F32.emax m e l) as [mrs1 e1].
  destruct S1 as (Hm1 & _ & _).
  set (m1 := round_nearest_even (shr_m mrs1) (loc_of_shr_record mrs1)).
  pose proof (round_nearest_even_bounds (shr_m mrs1) (loc_of_shr_record mrs1)) as R.
  fold m1 in R.
  pose proof (shr_fexp_shape m1 e1 loc_Exact ltac:(lia)) as S2.
  unfold shr_fexp in S2 |- *. rewrite fexp_unfold in S2 |- *.
  pose proof (Zdigits2_nonneg m1) as Hd1.
  destruct (Z.max (Zdigits2 m1 + e1 - 24) (-149) - e1) as [|p|p] eqn:En;
    cbn [shr] in S2 |- *.
  - cbn [shr_record_of_loc shr_m] in *.
    destruct m1 as [|q|q] eqn:Eq; [reflexivity| |reflexivity].
    destruct (e1 <=? F32.emax - F32.prec) eqn:Ee; [|reflexivity].
    cbn [F32.in_format]. rewrite Ee, andb_true_r. apply Z.leb_le.
    cbn [Zdigits2] in *. unfold F32.prec. lia.
  - destruct S2 as (Hm2 & _ & _).
    pose proof (iter_shr_1_m p (shr_record_of_loc m1 loc_Exact)) as Hq.
    rewrite shr_record_of_loc_m in Hq. specialize (Hq ltac:(lia)).
    pose proof (Zdigits2_shift m1 (Zpos p) ltac:(lia) ltac:(lia)) as Hs.
    rewrite <- Hq in Hs.
    destruct (shr_m (iter_pos shr_1 p (shr_record_of_loc m1 loc_Exact)))
      as [|q|q] eqn:Eq; [reflexivity| |reflexivity].
    destruct (e1 + Zpos p <=? F32.emax - F32.prec) eqn:Ee; [|reflexivity].
    cbn [F32.in_format]. rewrite Ee, andb_true_r. apply Z.leb_le.
    cbn [Zdigits2] in Hs. unfold F32.prec. lia.
  - cbn [shr_record_of_loc shr_m] in *.
    destruct m1 as [|q|q] eqn:Eq; [reflexivity| |reflexivity].
    destruct (e1 <=? F32.emax - F32.prec) eqn:Ee; [|reflexivity].
    cbn [F32.in_format]. rewrite Ee, andb_true_r. apply Z.leb_le.
    cbn [Zdigits2] in *. unfold F32.prec. lia.
Qed.

(** Rounding makes no NaN. *)
Lemma binary_round_aux_not_nan (s : bool) (m e : Z) (l : location) :
  0 <= m -> binary_round_aux F32.prec F32.emax s m e l <> S754_nan.
Proof.
  intros Hm. unfold binary_round_aux.
  pose proof (shr_fexp_shape m e l Hm) as S1.
  destruct (shr_fexp F32.prec F32.emax m e l) as [mrs1 e1].
  destruct S1 as (Hm1 & _ & _).
  set (m1 := round_nearest_even (shr_m mrs1) (loc_of_shr_record mrs1)).
  pose proof (round_nearest_even_bounds (shr_m mrs1) (loc_of_shr_record mrs1)) as R.
  fold m1 in R.
  pose proof (shr_fexp_shape m1 e1 loc_Exact ltac:(lia)) as S2.
  destruct (shr_fexp F32.prec F32.emax m1 e1 loc_Exact) as [mrs2 e2].
  destruct S2 as (Hm2 & _ & _).
  destruct (shr_m mrs2) as [|q|q]; [discriminate| |lia].
  destruct (e2 <=? F32.emax - F32.prec); discriminate.
Qed.

(** Rounding a mantissa of magnitude below [2^K], [K <= 127], does not
    overflow. *)
Lemma binary_round_aux_no_overflow (s : bool) (m e : Z) (l : location) (K : Z) :
  0 <= m -> e <= 104 -> Zdigits2 m + e <= K -> 0 <= K <= 127 ->
  F32.mag_le (binary_round_aux F32.prec F32.emax s m e l) (K + 1) = true.
Proof.
  intros Hm He Hmag HK. unfold binary_round_aux.
  pose proof (shr_fexp_shape m e l Hm) as S1.
  destruct (shr_fexp F32.prec F32.emax m e l) as [mrs1 e1].
  destruct S1 as (Hm1 & He1 & Hd1).
  set (m1 := round_nearest_even (shr_m mrs1) (loc_of_shr_record mrs1)).
  pose proof (round_nearest_even_bounds (shr_m mrs1) (loc_of_shr_record mrs1)) as R.
  fold m1 in R.
  assert (Hdm1 : Zdigits2 m1 <= Zdigits2 (shr_m mrs1) + 1).
  { apply Z.le_trans with (Zdigits2 (shr_m mrs1 + 1));
      [apply Zdigits2_le; lia | apply Zdigits2_succ; lia]. }
  pose proof (shr_fexp_shape m1 e1 loc_Exact ltac:(lia)) as S2.
  destruct (shr_fexp F32.prec F32.emax m1 e1 loc_Exact) as [mrs2 e2].
  destruct S2 as (Hm2 & He2 & Hd2).
  pose proof (Zdigits2_nonneg m) as N0.
  pose proof (Zdigits2_nonneg (shr_m mrs1)) as N1.
  pose proof (Zdigits2_nonneg m1) as N2.
  destruct (shr_m mrs2) as [|q|q] eqn:Eq; [reflexivity| |lia].
  replace (e2 <=? F32.emax - F32.prec) with true
    by (symmetry; apply Z.leb_le; unfold F32.emax, F32.prec; lia).
  cbn [F32.mag_le]. apply Z.leb_le. cbn [Zdigits2] in Hd2. lia.
Qed.

Lemma binary_round_no_overflow (s : bool) (m : positive) (e K : Z) :
  Zpos (digits2_pos m) + e <= K -> 0 <= K <= 127 ->
  F32.mag_le (binary_round F32.prec F32.emax s m e) (K + 1) = true.
Proof.
  intros Hmag HK. unfold binary_round, shl_align. rewrite fexp_unfold.
  destruct (Z.max (Zpos (digits2_pos m) + e - 24) (-149) - e) as [|k|k] eqn:Ek.
  - apply binary_round_aux_no_overflow; cbn [Zdigits2]; lia.
  - apply binary_round_aux_no_overflow; cbn [Zdigits2]; lia.
  - apply binary_round_aux_no_overflow; cbn [Zdigits2];
      rewrite ?iter_xO_digits; lia.
Qed.

Lemma binary_normalize_no_overflow (m e K : Z) (szero : bool) :
  Zdigits2 m + e <= K -> 0 <= K <= 127 ->
  F32.mag_le (binary_normalize F32.prec F32.emax m e szero) (K + 1) = true.
Proof.
  intros Hmag HK. destruct m as [|p|p]; cbn [binary_normalize Zdigits2] in *;
    [reflexivity| |]; apply binary_round_no_overflow; assumption.
Qed.

Lemma mag_le_mono (x : spec_float) (K K' : Z) :
  K <= K' -> F32.mag_le x K = true -> F32.mag_le x K' = true.
Proof.
  intros HK. destruct x; cbn [F32.mag_le]; try (intros; assumption || reflexivity).
  rewrite !Z.leb_le. lia.
Qed.

Lemma mag_le_finite (x : spec_float) (K : Z) :
  F32.mag_le x K = true -> F32.is_finite x = true.
Proof. destruct x; cbn; congruence. Qed.

(** [static_cast<float>] of an [int] is finite and below [2^33]. *)
Lemma of_int_mag (n : Z) :
  - 2 ^ 31 <= n < 2 ^ 31 -> F32.mag_le (F32.of_int n) 33 = true.
Proof.
  intros Hn. unfold F32.of_int.
  apply (binary_normalize_no_overflow n 0 32); [|lia].
  assert (H : Zdigits2 (Z.abs n) <= 32).
  { apply (Zdigits2_upper (Z.abs n) 32); lia. }
  destruct n; cbn [Zdigits2 Z.abs] in *; lia.
Qed.

Lemma shl_align_fst (m : positive) (e e' : Z) :
  e' <= e -> Zpos (fst (shl_align m e e')) = Zpos m * 2 ^ (e - e').
Proof.
  intros He. unfold shl_align.
  destruct (e' - e) as [|k|k] eqn:Ek; cbn [fst]; try lia.
  - replace (e - e') with 0 by lia. change (2 ^ 0) with 1. lia.
  - rewrite iter_xO_value. f_equal. f_equal. lia.
Qed.

Lemma aligned_below (m : positive) (e e' K : Z) :
  e' <= e -> Zpos (digits2_pos m) + e <= K ->
  Zpos (fst (shl_align m e e')) < 2 ^ (K - e').
Proof.
  intros He HK. rewrite shl_align_fst by assumption.
  pose proof (digits2_pos_bounds m) as [_ Hhi].
  assert (Hp : 0 < 2 ^ (e - e')) by (apply Z.pow_pos_nonneg; lia).
  apply Z.lt_le_trans with (2 ^ Zpos (digits2_pos m) * 2 ^ (e - e')); [nia|].
  rewrite <- Z.pow_add_r by lia. apply Z.pow_le_mono_r; lia.
Qed.

(** The difference of two finite values is finite while they are below
    [2^125]. *)
Lemma sub_mag (x y : F32.float32) (K : Z) :
  F32.mag_le x K = true -> F32.mag_le y K = true -> 0 <= K <= 125 ->
  F32.mag_le (F32.sub x y) (K + 2) = true.
Proof.
  intros Hx Hy HK. rewrite spec_sub.
  destruct x as [[sx|sx| |sx mx ex]|], y as [[sy|sy| |sy my ey]|];
    cbn [F32.spec] in *; try discriminate.
  - destruct sx, sy; reflexivity.
  - cbn [SFsub F32.mag_le] in *. rewrite Z.leb_le in *. lia.
  - cbn [SFsub F32.mag_le] in *. rewrite Z.leb_le in *. lia.
  - cbn [F32.mag_le] in Hx, Hy. rewrite Z.leb_le in Hx, Hy.
    unfold SFsub.
    set (ez := Z.min ex ey).
    pose proof (aligned_below mx ex ez K ltac:(lia) Hx) as Bx.
    pose proof (aligned_below my ey ez K ltac:(lia) Hy) as By.
    set (ax := Zpos (fst (shl_align mx ex ez))) in *.
    set (ay := Zpos (fst (shl_align my ey ez))) in *.
    assert (Hlow : 1 <= K - ez).
    { pose proof (Pos2Z.is_pos (digits2_pos mx)). lia. }
    replace (K + 2) with (K + 1 + 1) by lia.
    apply (binary_normalize_no_overflow _ ez (K + 1)); [|lia].
    set (d := cond_Zopp sx ax - cond_Zopp sy ay).
    assert (Hd : Z.abs d < 2 ^ (K - ez + 1)).
    { rewrite Z.pow_add_r, Z.pow_1_r by lia.
      subst d. unfold cond_Zopp. destruct sx, sy; lia. }
    assert (Hdig : Zdigits2 (Z.abs d) <= K - ez + 1).
    { apply (Zdigits2_upper (Z.abs d) (K - ez + 1)); lia. }
    destruct d; cbn [Zdigits2 Z.abs] in *; lia.
Qed.

(** A finite value divided by a finite value of magnitude at least one
    half: no overflow. *)
Lemma div_mag (x : F32.float32) (sy : bool) (my : positive) (ey K : Z) :
  F32.mag_le x K = true -> 0 <= K <= 126 ->
  0 <= Zpos (digits2_pos my) + ey ->
  F32.mag_le (F32.div x (F32.Num (S754_finite sy my ey))) (K + 2) = true.
Proof.
  intros Hx HK Hy. rewrite spec_div.
  destruct x as [[sx|sx| |sx mx ex]|]; cbn [F32.spec] in *;
    try discriminate; [reflexivity|].
  cbn [F32.mag_le] in Hx. rewrite Z.leb_le in Hx.
  unfold SFdiv, SFdiv_core_binary. cbn [Zdigits2]. rewrite fexp_unfold.
  set (dx := Zpos (digits2_pos mx)) in *. set (dy := Zpos (digits2_pos my)) in *.
  set (e' := Z.min (Z.max (dx + ex - (dy + ey) - 24) (-149)) (ex - ey)).
  set (s := ex - ey - e').
  assert (Hs : 0 <= s) by (subst s e'; lia).
  set (m' := match s with Z.pos _ => Z.shiftl (Z.pos mx) s | 0 => Z.pos mx | Z.neg _ => 0 end).
  assert (Hm' : m' = Zpos mx * 2 ^ s).
  { subst m'. destruct s as [|p|p] eqn:Es; [change (2 ^ 0) with 1; lia | | lia].
    apply Z.shiftl_mul_pow2. lia. }
  destruct (Z.div_eucl m' (Z.pos my)) as [q r] eqn:Ediv.
  assert (Hq : q = m' / Zpos my) by (unfold Z.div; rewrite Ediv; reflexivity).
  pose proof (digits2_pos_bounds mx) as [_ Hxhi].
  pose proof (digits2_pos_bounds my) as [Hylo _].
  fold dx in Hxhi. fold dy in Hylo.
  assert (Hps : 0 < 2 ^ s) by (apply Z.pow_pos_nonneg; lia).
  assert (Hq0 : 0 <= q) by (subst q; apply Z.div_pos; lia).
  assert (Hdy : 1 <= dy) by (subst dy; pose proof (Pos2Z.is_pos (digits2_pos my)); lia).
  assert (Hqd : Zdigits2 q <= Z.max 0 (dx + s - (dy - 1))).
  { assert (Hqle : q <= m' / 2 ^ (dy - 1)).
    { subst q. apply Z.div_le_compat_l; [nia|].
      split; [apply Z.pow_pos_nonneg; lia | exact Hylo]. }
    apply Z.le_trans with (Zdigits2 (m' / 2 ^ (dy - 1))).
    - apply Zdigits2_le. lia.
    - assert (Hdm' : Zdigits2 m' <= dx + s).
      { apply (Zdigits2_upper m' (dx + s)); [lia|].
        rewrite Hm', Z.pow_add_r by lia. nia. }
      pose proof (Zdigits2_shift m' (dy - 1) ltac:(nia) ltac:(lia)). lia. }
  replace (K + 2) with (K + 1 + 1) by lia.
  apply (binary_round_aux_no_overflow _ q e' _ (K + 1)); subst s e'; lia.
Qed.

End RangeFacts.

(** ** How long and how exact the written numbers are *)

Section TextFacts.

Import Printf Wire Hub.

Lemma dec_digits_length_le (fuel : nat) :
  forall n acc (k : nat),
    (1 <= k)%nat -> 0 <= n < 10 ^ Z.of_nat k ->
    (String.length (dec_digits fuel n acc) <= String.length acc + k)%nat.
Proof.
  induction fuel as [|fuel IH]; intros n acc k Hk Hn; cbn [dec_digits]; [lia|].
  destruct (Z.eqb_spec (n / 10) 0) as [Hq|Hq]; cbn [String.length]; [lia|].
  destruct k as [|[|k]]; [lia| |].
  - change (10 ^ Z.of_nat 1) with 10 in Hn.
    rewrite Z.div_small in Hq by lia. lia.
  - assert (Hn' : 0 <= n / 10 < 10 ^ Z.of_nat (S k)).
    { rewrite (Nat2Z.inj_succ (S k)), Z.pow_succ_r in Hn by lia.
      split; [apply Z.div_pos; lia | apply Z.div_lt_upper_bound; lia]. }
    specialize (IH (n / 10) (String (digit_char (n mod 10)) acc) (S k) ltac:(lia) Hn').
    cbn [String.length] in IH. lia.
Qed.

Lemma dec_length_le (n : Z) (k : nat) :
  (1 <= k)%nat -> 0 <= n < 10 ^ Z.of_nat k -> (String.length (dec n) <= k)%nat.
Proof.
  intros Hk Hn. unfold dec.
  pose proof (dec_digits_length_le (S (Z.to_nat (Z.log2 n))) n EmptyString k Hk Hn) as H.
  cbn [String.length] in H. lia.
Qed.

Lemma scaled_round_nonneg (m : positive) (e : Z) (d : nat) : 0 <= scaled_round m e d.
Proof.
  unfold scaled_round.
  assert (Hp : 0 < 10 ^ Z.of_nat d) by (apply Z.pow_pos_nonneg; lia).
  destruct (Z.leb_spec 0 e) as [He|He].
  - assert (0 < 2 ^ e) by (apply Z.pow_pos_nonneg; lia). nia.
  - assert (Hden : 0 < 2 ^ (- e)) by (apply Z.pow_pos_nonneg; lia).
    assert (Hq : 0 <= Zpos m * 10 ^ Z.of_nat d / 2 ^ (- e)) by (apply Z.div_pos; nia).
    destruct (2 * (Zpos m * 10 ^ Z.of_nat d mod 2 ^ (- e)) ?= 2 ^ (- e));
      [destruct (Z.even _)| |]; lia.
Qed.

(** The number written is the nearest multiple of [10^-d]: exact for a
    non-negative exponent, otherwise within half a unit of the last
    digit. *)
Lemma scaled_round_nearest (m : positive) (e : Z) (d : nat) :
  (0 <= e -> scaled_round m e d = Zpos m * 2 ^ e * 10 ^ Z.of_nat d) /\
  (e < 0 ->
   2 * Z.abs (scaled_round m e d * 2 ^ (- e) - Zpos m * 10 ^ Z.of_nat d) <= 2 ^ (- e)).
Proof.
  unfold scaled_round. split; intros He.
  - replace (0 <=? e) with true by (symmetry; apply Z.leb_le; lia). reflexivity.
  - replace (0 <=? e) with false by (symmetry; apply Z.leb_gt; lia).
    assert (Hden : 0 < 2 ^ (- e)) by (apply Z.pow_pos_nonneg; lia).
    set (den := 2 ^ (- e)) in *. set (num := Zpos m * 10 ^ Z.of_nat d).
    pose proof (Z.div_mod num den ltac:(lia)) as Hdm.
    pose proof (Z.mod_pos_bound num den Hden) as Hr.
    set (q := num / den) in *. set (r := num mod den) in *.
    destruct (Z.compare_spec (2 * r) den) as [Hc|Hc|Hc];
      [destruct (Z.even q)| |]; nia.
Qed.

(** An in-format value has an integer part below [10^39]. *)
Lemma scaled_round_integer_part (m : positive) (e : Z) (d : nat) :
  F32.in_format (S754_finite false m e) = true ->
  0 <= scaled_round m e d / 10 ^ Z.of_nat d < 10 ^ 39.
Proof.
  cbn [F32.in_format]. rewrite andb_true_iff, !Z.leb_le.
  unfold F32.prec, F32.emax. intros [Hd He].
  assert (Hp : 0 < 10 ^ Z.of_nat d) by (apply Z.pow_pos_nonneg; lia).
  pose proof (scaled_round_nonneg m e d) as H0.
  split; [apply Z.div_pos; lia|].
  pose proof (digits2_pos_bounds m) as [_ Hhi].
  assert (Hm : Zpos m < 2 ^ 24).
  { apply Z.lt_le_trans with (2 ^ Zpos (digits2_pos m)); [exact Hhi|].
    apply Z.pow_le_mono_r; lia. }
  destruct (scaled_round_nearest m e d) as [Hge Hlt].
  destruct (Z_le_gt_dec 0 e) as [He0|He0].
  - rewrite (Hge He0), Z.div_mul by lia.
    assert (H2 : 2 ^ e <= 2 ^ 104) by (apply Z.pow_le_mono_r; lia).
    assert (0 < 2 ^ e) by (apply Z.pow_pos_nonneg; lia).
    apply Z.lt_le_trans with (2 ^ 24 * 2 ^ 104); [nia|].
    vm_compute. discriminate.
  - specialize (Hlt ltac:(lia)).
    assert (Hden : 2 <= 2 ^ (- e)).
    { change 2 with (2 ^ 1) at 1. apply Z.pow_le_mono_r; lia. }
    apply Z.div_lt_upper_bound; [lia|].
    assert (Hle : scaled_round m e d <= Zpos m * 10 ^ Z.of_nat d) by nia.
    apply Z.le_lt_trans with (2 ^ 24 * 10 ^ Z.of_nat d); [nia|].
    apply Z.mul_lt_mono_pos_l with (p := 10 ^ Z.of_nat d) in Hm; [|lia].
    assert (2 ^ 24 < 10 ^ 39) by (vm_compute; reflexivity). nia.
Qed.

Lemma fixed_text_length (s : bool) (n : Z) (d : nat) (k : nat) :
  (1 <= k)%nat -> 0 <= n / 10 ^ Z.of_nat (S d) < 10 ^ Z.of_nat k ->
  (String.length (fixed_text s n (S d)) <= 1 + k + 1 + S d)%nat.
Proof.
  intros Hk Hn. unfold fixed_text.
  rewrite !length_append. cbn [String.length]. rewrite frac_digits_length.
  pose proof (dec_length_le _ k Hk Hn).
  destruct s; cbn [sign_text String.length]; lia.
Qed.

(** [%.Nf] of an in-format value takes at most [41 + N] characters. *)
Lemma fmt_f_length (d : nat) (x : F32.float32) :
  F32.in_format x = true -> (String.length (fmt_f (S d) x) <= 41 + S d)%nat.
Proof.
  intros Hx. destruct x as [[s|s| |s m e]|]; cbn [F32.spec] in Hx; cbn [fmt_f];
    [| | | |cbn [String.length]; lia].
  - apply (fixed_text_length s 0 d 39); [lia|].
    rewrite Z.div_0_l by (apply Z.pow_nonzero; lia).
    split; [lia | vm_compute; reflexivity].
  - destruct s; cbn [sign_text append String.length]; lia.
  - cbn [String.length]. lia.
  - apply (fixed_text_length s _ d 39); [lia|].
    apply scaled_round_integer_part. exact Hx.
Qed.

End TextFacts.

(** ** Runs: what a line shows and what a run calls *)

Section RunFacts.

Import Printf Wire Hub.

(** The variable a pointer-fed field is read from. *)
Lemma pointer_fed_text (v : Vars) (c : Collab) (f : field_id) :
  pointer_fed f = true ->
  text_of (snd (read_sensors v c)) f =
    match report_of c f with
    | Some x => fmt_f (digits_of f) (promote x)
    | None => text_of (snd (read_sensors v c)) f
    end.
Proof.
  intros Hf. destruct f; try discriminate Hf; cbn [report_of];
    unfold text_of, read_sensors;
    cbn [snd numeric_value digits_of soil_temp longitude latitude
         board_temp_c gps_longitude_deg gps_latitude_deg].
  - destruct (temp_sense c); reflexivity.
  - destruct (w_longitude (gga_sensing c)); reflexivity.
  - destruct (w_latitude (gga_sensing c)); reflexivity.
Qed.

Lemma report_none_silent (c : Collab) (f : field_id) :
  pointer_fed f = true -> report_of c f = None -> reports c f = false.
Proof.
  intros Hf. destruct f; try discriminate Hf; cbn [report_of reports];
    intros ->; reflexivity.
Qed.

Lemma text_of_last_report (env : nat -> Collab) (f : field_id) (i : nat) :
  pointer_fed f = true ->
  text_of (record_at env i) f =
    match last_report env f i with
    | Some x => fmt_f (digits_of f) (promote x)
    | None => startup_text f
    end.
Proof.
  intros Hf. induction i as [|i IH]; cbn [last_report].
  - destruct (report_of (env O) f) as [x|] eqn:E.
    + unfold record_at. rewrite (pointer_fed_text _ _ _ Hf), E. reflexivity.
    + apply silent_text_startup, report_none_silent; assumption.
  - destruct (report_of (env (S i)) f) as [x|] eqn:E.
    + unfold record_at. rewrite (pointer_fed_text _ _ _ Hf), E. reflexivity.
    + rewrite <- IH. apply silent_text_previous, report_none_silent; assumption.
Qed.

(** X1.  In every line of every run, each of [soil_temp], [longitude]
    and [latitude] shows the value its driver stored most recently, in
    that iteration or any earlier one, under the field's format; as
    long as the driver has never stored anything it shows the
    initialiser [0.0f]. *)
Theorem pointer_fed_field_shows_last_report
        (n : nat) (env : nat -> Collab) (i : nat) (f : field_id) :
  (i < n)%nat -> pointer_fed f = true ->
  exists line,
    line_at n env i = Some line /\
    field (key_of f) line =
      Some match last_report env f i with
           | Some x => fmt_f (digits_of f) (promote x)
           | None => startup_text f
           end.
Proof.
  intros Hi Hf. exists (line_of (record_at env i)).
  split; [apply line_at_main, Hi|].
  rewrite field_line_of. f_equal. apply text_of_last_report, Hf.
Qed.

Lemma pointer_fed_field_shows_last_report_witness :
  exists line,
    line_at 3 (fun i => match i with 1%nat => scenario | _ => all_silent end) 2 = Some line /\
    field "latitude" line = Some "37.774899".
Proof.
  exact (pointer_fed_field_shows_last_report 3
           (fun i => match i with 1%nat => scenario | _ => all_silent end) 2 Latitude
           ltac:(lia) eq_refl).
Defined.





End RunFacts.

(** ** What the record can hold *)

Section RecordFacts.

Import Printf Wire Hub.

Lemma of_int_in_format (n : Z) : F32.in_format (F32.of_int n) = true.
Proof.
  unfold F32.of_int; cbn [F32.spec]; unfold binary_normalize.
  destruct n as [|p|p]; [reflexivity| |]; unfold binary_round;
    destruct (shl_align _ _ _) as [mz ez]; apply binary_round_aux_in_format; lia.
Qed.

Lemma mul_in_format (x y : F32.float32) : F32.in_format (F32.mul x y) = true.
Proof.
  rewrite spec_mul.
  destruct (F32.spec x) as [sx|sx| |sx mx ex], (F32.spec y) as [sy|sy| |sy my ey];
    try reflexivity.
  apply binary_round_aux_in_format. lia.
Qed.

Lemma div_in_format (x y : F32.float32) : F32.in_format (F32.div x y) = true.
Proof.
  rewrite spec_div.
  destruct (F32.spec x) as [sx|sx| |sx mx ex], (F32.spec y) as [sy|sy| |sy my ey];
    try reflexivity.
  unfold SFdiv, SFdiv_core_binary.
  set (s := ex - ey - _).
  set (m' := match s with Z.pos _ => Z.shiftl (Z.pos mx) s | 0 => Z.pos mx | Z.neg _ => 0 end).
  assert (Hm' : 0 <= m').
  { subst m'. destruct s; try lia. apply Z.shiftl_nonneg. lia. }
  destruct (Z.div_eucl m' (Z.pos my)) as [q r] eqn:Ediv.
  assert (Hq : q = m' / Zpos my) by (unfold Z.div; rewrite Ediv; reflexivity).
  apply binary_round_aux_in_format. subst q. apply Z.div_pos; lia.
Qed.

Lemma valid_in_format (x : spec_float) :
  valid_binary F32.prec F32.emax x = true -> F32.in_format x = true.
Proof.
  destruct x as [s|s| |s m e]; try reflexivity.
  cbn [valid_binary F32.in_format]. unfold bounded, canonical_mantissa.
  rewrite !andb_true_iff, Z.eqb_eq, !Z.leb_le, fexp_unfold.
  unfold F32.prec. lia.
Qed.

(** The scaling of the soil fraction makes no NaN of its own: a NaN
    after it is the NaN that was read, with its sign. *)
Lemma mul_100_nan (x : F32.float32) :
  F32.spec (F32.mul x (F32.lit 1000 1)) = S754_nan ->
  F32.mul x (F32.lit 1000 1) = x.
Proof.
  change (F32.lit 1000 1) with (F32.Num (S754_finite false 13107200 (-17))).
  destruct x as [[s|s| |s m e]|]; cbn [F32.mul F32.lift2 F32.spec SFmul];
    try discriminate; try reflexivity.
  intros H. apply binary_round_aux_not_nan in H; [destruct H | lia].
Qed.

(** The value a pointer-fed field holds: the latest one stored, or the
    initialiser. *)
Lemma value_last_report (env : nat -> Collab) (f : field_id) (i : nat) :
  pointer_fed f = true ->
  numeric_value (record_at env i) f =
    Some match last_report env f i with
         | Some x => x
         | None => F32.lit 0 1
         end.
Proof.
  intros Hf. induction i as [|i IH]; cbn [last_report].
  - destruct f; try discriminate Hf; unfold record_at, read_sensors;
      cbn [snd numeric_value report_of soil_temp longitude latitude
           board_temp_c gps_longitude_deg gps_latitude_deg vars_at];
      [destruct (temp_sense (env O)) | destruct (w_longitude (gga_sensing (env O)))
       | destruct (w_latitude (gga_sensing (env O)))]; reflexivity.
  - destruct (record_at_vars env i) as (E1 & E2 & E3).
    destruct f; try discriminate Hf; cbn [numeric_value] in IH;
      unfold record_at at 1, read_sensors;
      cbn [snd numeric_value report_of soil_temp longitude latitude
           board_temp_c gps_longitude_deg gps_latitude_deg].
    + destruct (temp_sense (env (S i))); cbn [stored]; congruence.
    + destruct (w_longitude (gga_sensing (env (S i)))); cbn [stored]; congruence.
    + destruct (w_latitude (gga_sensing (env (S i)))); cbn [stored]; congruence.
Qed.

Lemma last_report_source (env : nat -> Collab) (f : field_id) (i : nat) (x : F32.float32) :
  last_report env f i = Some x -> exists j, report_of (env j) f = Some x.
Proof.
  induction i as [|i IH]; cbn [last_report].
  - intros H. exists O. exact H.
  - destruct (report_of (env (S i)) f) as [y|] eqn:E; [|exact IH].
    intros [= <-]. exists (S i). exact E.
Qed.

(** Every value handed to [printf] fits binary32 when the drivers
    store binary32 values. *)
Lemma record_in_format (env : nat -> Collab) (i : nat) (f : field_id) (x : F32.float32) :
  (forall j, stores_binary32 (env j)) ->
  numeric_value (record_at env i) f = Some x -> F32.in_format x = true.
Proof.
  intros Henv. destruct (pointer_fed f) eqn:Hf.
  - rewrite (value_last_report env f i Hf). intros [= <-].
    destruct (last_report env f i) as [y|] eqn:E; [|reflexivity].
    destruct (last_report_source env f i y E) as [j Hj].
    apply valid_in_format, (Henv j f y Hj).
  - destruct f; try discriminate Hf; unfold record_at, read_sensors;
      cbn [snd numeric_value ambient_temp humidity soil_moisture wind_speed
           ambient_temp_c relative_humidity_percent]; intros [= <-].
    + apply div_in_format.
    + apply of_int_in_format.
    + apply mul_in_format.
    + reflexivity.
Qed.

Lemma line_of_length (r : Telemetry) :
  String.length (line_of r) =
    (104 + String.length (text_of r AmbientTemp) + String.length (text_of r Humidity)
     + String.length (text_of r SoilMoisture) + String.length (text_of r SoilTemp)
     + String.length (text_of r WindSpeed) + String.length (text_of r Longitude)
     + String.length (text_of r Latitude))%nat.
Proof.
  unfold line_of, render, fields_of, all_fields.
  cbn [map join_fields key_of].
  change (text_of r DeviceId) with kDeviceId.
  repeat (rewrite length_append || cbn [String.length]).
  unfold kDeviceId, CRLF. cbn [String.length]. lia.
Qed.

(** X4.  When the DHT11 getters return [int] values, every line of
    every run has an [ambient_temp] and a [humidity] field with exactly
    two fraction digits: the conversion from Fahrenheit and the cast of
    the humidity can overflow to neither an infinity nor a NaN. *)
Theorem ambient_and_humidity_always_finite (n : nat) (env : nat -> Collab) :
  (forall i, is_int (getFahrenheit (env i)) /\ is_int (getHumidity (env i))) ->
  Forall (fun line =>
            exists ta th,
              field "ambient_temp" line = Some ta /\ fixed_point 2 ta = true /\
              field "humidity" line = Some th /\ fixed_point 2 th = true)
         (lines_of (run_trace (main n env))).
Proof.
  intros Hint. rewrite lines_of_main. apply Forall_map, Forall_forall.
  intros i _. destruct (Hint i) as [Hf Hh].
  exists (text_of (record_at env i) AmbientTemp), (text_of (record_at env i) Humidity).
  rewrite (field_line_of _ AmbientTemp), (field_line_of _ Humidity).
  unfold text_of, record_at, read_sensors.
  cbn [snd numeric_value digits_of ambient_temp humidity
       ambient_temp_c relative_humidity_percent promote].
  repeat split.
  - apply fmt_f_fixed_point, (mag_le_finite _ 37).
    change (F32.lit 18 1) with (F32.Num (S754_finite false 15099494 (-23))).
    apply (div_mag _ false 15099494 (-23) 35); [|lia|cbn; lia].
    apply (sub_mag _ _ 33); [apply of_int_mag, Hf | reflexivity | lia].
  - apply fmt_f_fixed_point, (mag_le_finite _ 33), of_int_mag, Hh.
Qed.

Lemma ambient_and_humidity_always_finite_witness :
  Forall (fun line =>
            exists ta th,
              field "ambient_temp" line = Some ta /\ fixed_point 2 ta = true /\
              field "humidity" line = Some th /\ fixed_point 2 th = true)
         (lines_of (run_trace (main 2 (fun _ => infinite_board_temp)))).
Proof.
  apply (ambient_and_humidity_always_finite 2 (fun _ => infinite_board_temp)).
  intros i. unfold is_int. simpl. lia.
Defined.

(** X5.  When the drivers store binary32 values, no line of any run is
    longer than 371 characters, CR LF included, whatever the values
    are, infinities and NaN among them. *)
Theorem line_length_bounded (n : nat) (env : nat -> Collab) :
  (forall i, stores_binary32 (env i)) ->
  Forall (fun line => (String.length line <= 371)%nat)
         (lines_of (run_trace (main n env))).
Proof.
  intros Henv. rewrite lines_of_main. apply Forall_map, Forall_forall.
  intros i _. rewrite line_of_length.
  assert (H : forall f x,
             numeric_value (record_at env i) f = Some x ->
             (String.length (text_of (record_at env i) f) <= 41 + digits_of f)%nat).
  { intros f x Hx. unfold text_of. rewrite Hx.
    pose proof (record_in_format env i f x Henv Hx) as Hfmt.
    destruct f; try discriminate Hx; apply fmt_f_length, Hfmt. }
  pose proof (H AmbientTemp _ eq_refl). pose proof (H Humidity _ eq_refl).
  pose proof (H SoilMoisture _ eq_refl). pose proof (H SoilTemp _ eq_refl).
  pose proof (H Longitude _ eq_refl). pose proof (H Latitude _ eq_refl).
  change (text_of (record_at env i) WindSpeed) with "5.2".
  cbn [digits_of String.length] in *. lia.
Qed.

Lemma line_length_bounded_witness :
  Forall (fun line => (String.length line <= 371)%nat)
         (lines_of (run_trace (main 2 (fun _ => infinite_board_temp)))).
Proof.
  apply (line_length_bounded 2 (fun _ => infinite_board_temp)).
  intros i f x. destruct f; cbn; try discriminate; intros [= <-]; reflexivity.
Defined.

(** X6.  In every iteration where the analog input returns a
    fraction between 0 and 1, the [soil_moisture] field of the line
    sent is a number of tenths between 0 and 1000, that is between
    [0.0] and [100.0], with one fraction digit and at most five
    characters. *)
Theorem soil_moisture_text_range (n : nat) (env : nat -> Collab) (i : nat) :
  (i < n)%nat ->
  F32.nonneg (soil_read (env i)) = true -> F32.le_int (soil_read (env i)) 1 = true ->
  exists line text tenths,
    line_at n env i = Some line /\
    field "soil_moisture" line = Some text /\
    0 <= tenths <= 1000 /\
    text = fixed_text (F32.signbit (soil_moisture (record_at env i))) tenths 1 /\
    fixed_point 1 text = true /\
    (String.length text <= 5)%nat.
Proof.
  intros Hi Hn Hle. destruct (mul_100_range _ Hn Hle) as [Hn' Hle'].
  exists (line_of (record_at env i)),
    (fmt_f 1 (promote (F32.mul (soil_read (env i)) (F32.lit 1000 1)))).
  assert (E : soil_moisture (record_at env i) =
              F32.mul (soil_read (env i)) (F32.lit 1000 1)) by reflexivity.
  rewrite E.
  destruct (F32.mul (soil_read (env i)) (F32.lit 1000 1)) as [[s|s| |s m e]|] eqn:Em;
    cbn [F32.spec] in Hn', Hle'; try discriminate Hn'.
  - exists 0. split; [apply line_at_main, Hi|].
    split; [rewrite (field_line_of _ SoilMoisture); unfold text_of;
            cbn [numeric_value digits_of]; rewrite E; reflexivity|].
    split; [lia|]. split; [reflexivity|].
    destruct s; split; cbn; try reflexivity; lia.
  - cbn [F32.nonneg] in Hn'. destruct s; [discriminate|].
    exists (scaled_round m e 1).
    assert (Hb : 0 <= scaled_round m e 1 <= 1000).
    { split; [apply scaled_round_nonneg|].
      destruct (scaled_round_nearest m e 1) as [Hge Hlt].
      cbn [F32.le_int] in Hle'. change (10 ^ Z.of_nat 1) with 10 in *.
      destruct (Z.leb_spec 0 e) as [He|He]; apply Z.leb_le in Hle'.
      - rewrite (Hge He). lia.
      - specialize (Hlt He).
        assert (Hden : 2 <= 2 ^ (- e)).
        { change 2 with (2 ^ 1) at 1. apply Z.pow_le_mono_r; lia. }
        nia. }
    split; [apply line_at_main, Hi|].
    split; [rewrite (field_line_of _ SoilMoisture); unfold text_of;
            cbn [numeric_value digits_of]; rewrite E; reflexivity|].
    split; [exact Hb|]. split; [reflexivity|].
    split; [apply fmt_f_fixed_point; reflexivity|].
    cbn [fmt_f promote]. unfold fixed_text. cbn [sign_text append].
    rewrite length_append. cbn [String.length]. rewrite frac_digits_length.
    assert (Hd : (String.length (dec (scaled_round m e 1 / 10 ^ Z.of_nat 1)) <= 3)%nat).
    { apply dec_length_le; [lia|]. change (10 ^ Z.of_nat 1) with 10.
      change (10 ^ Z.of_nat 3) with 1000.
      split; [apply Z.div_pos; lia | apply Z.div_lt_upper_bound; lia]. }
    lia.
Qed.

Lemma soil_moisture_text_range_witness :
  exists line text tenths,
    line_at 1 (fun _ => scenario) 0 = Some line /\
    field "soil_moisture" line = Some text /\
    0 <= tenths <= 1000 /\
    text = fixed_text (F32.signbit (soil_moisture (record_at (fun _ => scenario) 0))) tenths 1 /\
    fixed_point 1 text = true /\
    (String.length text <= 5)%nat.
Proof.
  exact (soil_moisture_text_range 1 (fun _ => scenario) 0
           (Nat.lt_succ_diag_r 0) eq_refl eq_refl).
Defined.

(** X8.  Two whole runs whose collaborators agree, iteration by
    iteration, on the ambient reading, the humidity, the soil fraction
    and on what the board-temperature, latitude and longitude outputs
    store (or that they store nothing) make the same calls and send the
    same lines throughout, whatever the voltage reads and the other GPS
    outputs do in either run. *)
Theorem published_noninterference_over_runs (n : nat) (env1 env2 : nat -> Collab) :
  (forall i, same_published (env1 i) (env2 i)) ->
  run_trace (main n env1) = run_trace (main n env2).
Proof.
  intros Henv. rewrite !main_unroll. cbn [run_trace]. do 2 f_equal.
  apply flat_map_ext. intros i. unfold cycle_trace.
  rewrite (record_at_published env1 env2 Henv i). reflexivity.
Qed.

Lemma published_noninterference_over_runs_witness :
  run_trace (main 2 (fun _ => scenario)) = run_trace (main 2 (fun _ => scenario_other)).
Proof.
  apply (published_noninterference_over_runs 2 (fun _ => scenario) (fun _ => scenario_other)).
  intros i. repeat split.
Defined.

End RecordFacts.
